(** * Mensageiro da Rosacruz Áurea: the scheduling and claim engine of app.py

    A shallow embedding of [src/app.py].  Python text is a list of code
    points, a dict is a finite map, an exception is a [Raise] result, and the
    functions that touch the control file, the session log or an outside
    service run in a state-and-exception monad over [world].

    Conventions of the model.
    - [with THREAD_LOCK:] makes its block atomic; the model runs one block at
      a time, so the lock is the sequencing of the monad.
    - The control file is described by the JSON value its text denotes
      ([Holds]), or by the way reading it fails ([Absent], [Unreadable],
      [Corrupt]).  [json.dumps] followed by [json.loads] gives back the
      value, so a write of [data] that takes effect leaves the file holding
      [data].  Whether a write takes effect is decided outside the program:
      the world carries, for each attempt to write the file, what the file
      system makes of it ([Written], or one of the failures that
      [save_control] swallows).
    - Stored values range over null, integers, strings and arrays whose
      entries are null, integers, strings or arrays of scalars; a stored
      document that is not an object is [JOther].  Where a member or an
      entry of [sent] or [random_times] is a fractional number or a boolean,
      the program does with it what it does with an integer ([PInt],
      [EInt]).  Inside the inner arrays, whose entries the program compares
      with the clock and prints into keys, they are told apart: an array of
      integers is [EInts], any other array is [EMixed].  Objects below the
      top level are outside this range.
    - The scheduler thread is started without a script run context, so the
      [st.session_state] it sees is not the session of a page: what it
      stores there under ["log"] is not the log the page shows.
    - The random generator, the clock, the secrets and the two outside
      services are variables of the section [Program]: every theorem holds
      for each behaviour of them. *)

From Stdlib Require Import ZArith NArith String Ascii List Lia Decimal DecimalZ.
From stdpp Require Import gmap list fin_maps.

(** ** Python text *)

Definition lit (s : string) : list N :=
  map N_of_ascii (list_ascii_of_string s).
Arguments lit : simpl never.

Fixpoint uint_chars (d : Decimal.uint) : list N :=
  match d with
  | Nil => []
  | D0 d => 48%N :: uint_chars d
  | D1 d => 49%N :: uint_chars d
  | D2 d => 50%N :: uint_chars d
  | D3 d => 51%N :: uint_chars d
  | D4 d => 52%N :: uint_chars d
  | D5 d => 53%N :: uint_chars d
  | D6 d => 54%N :: uint_chars d
  | D7 d => 55%N :: uint_chars d
  | D8 d => 56%N :: uint_chars d
  | D9 d => 57%N :: uint_chars d
  end.

(** [str(n)] of a Python int: decimal digits, a leading [-] when negative. *)
Definition str_int (n : Z) : list N :=
  match Z.to_int n with
  | Decimal.Pos d => uint_chars d
  | Decimal.Neg d => 45%N :: uint_chars d
  end.

Definition pystr_eqb (a b : list N) : bool := bool_decide (a = b).

(** ** Exceptions and results *)

Inductive exn :=
| KeyError (key : option (list N))
| TypeError
| AttributeError
| IndexError
| ValueError
| OSError
| JSONDecodeError
| ServiceError (text : list N).

(** [str(e)], used where a handler formats the exception it caught: a
    missing secret ([KeyError]) or a failure reported by an outside service. *)
Definition exn_str (e : exn) : list N :=
  match e with
  | KeyError (Some k) => lit "'" ++ k ++ lit "'"
  | KeyError None => lit "None"
  | ServiceError t => t
  | _ => []
  end.

Inductive res (A : Type) :=
| Ok (a : A)
| Raise (e : exn).
Arguments Ok {A} a.
Arguments Raise {A} e.

(** ** Stored values *)

(** An entry of an inner array, as far as the program looks at it: an
    integer; a fractional number, with the integer it equals, if any, and
    its text under [str]; a boolean; anything else (null, a string, an
    array), which no integer equals, with its text under [str]. *)
Inductive scalar :=
| SInt (z : Z)
| SFloat (whole : option Z) (text : list N)
| SBool (b : bool)
| SOther (text : list N).

Inductive elem :=
| ENone
| EInt (z : Z)
| EStr (s : list N)
| EInts (l : list Z)
| EMixed (l : list scalar).

Inductive pyval :=
| PNone
| PInt (z : Z)
| PStr (s : list N)
| PList (l : list elem).

Inductive json :=
| JObject (d : gmap (list N) pyval)
| JOther.

Inductive file_state :=
| Absent
| Unreadable
| Corrupt
| Holds (j : json).

#[global] Instance scalar_eq_dec : EqDecision scalar.
Proof. solve_decision. Defined.
#[global] Instance elem_eq_dec : EqDecision elem.
Proof. solve_decision. Defined.
#[global] Instance pyval_eq_dec : EqDecision pyval.
Proof. solve_decision. Defined.

(** ** Delivery results and the world *)

Inductive pushover_result :=
| Posted (status : Z) (response : list N)
| Failed (error : list N).

Definition success (r : pushover_result) : bool :=
  match r with
  | Posted st _ => Z.eqb st 200
  | Failed _ => false
  end.

Record delivery_result := {
  timestamp : list N;
  type : list N;
  result_sanctuary : list N;
  message : list N;
  pushover : pushover_result
}.

(** What the file system makes of one [Path.write_text]. *)
Inductive write_event :=
| Written             (* the text is in the file and reads back *)
| WrittenUnreadable   (* the text is in the file, which cannot be read *)
| OpenFails           (* [open] raised (a directory or a read-only file at
                         the path): the file is as it was *)
| WriteFails (e : exn). (* opened and emptied, then the write raised (no
                           space left, text the encoding cannot take) *)

Record world := {
  control_file : file_state;     (* CONTROL_FILE *)
  writes : nat;                  (* attempts made to write the file *)
  disk : nat -> write_event;     (* what becomes of each attempt *)
  session_log : option (list delivery_result);  (* st.session_state["log"] *)
  draws : nat;                   (* values taken from the random generator *)
  calls : nat;                   (* requests made to outside services *)
  outbox : list (list N * list N) (* message and title of every POST made *)
}.

Definition set_file (f : file_state) (w : world) : world :=
  {| control_file := f; writes := S (writes w); disk := disk w;
     session_log := session_log w;
     draws := draws w; calls := calls w; outbox := outbox w |}.

Definition set_log (l : list delivery_result) (w : world) : world :=
  {| control_file := control_file w; writes := writes w; disk := disk w;
     session_log := Some l;
     draws := draws w; calls := calls w; outbox := outbox w |}.

Definition tick_draws (w : world) : world :=
  {| control_file := control_file w; writes := writes w; disk := disk w;
     session_log := session_log w;
     draws := S (draws w); calls := calls w; outbox := outbox w |}.

Definition tick_calls (w : world) : world :=
  {| control_file := control_file w; writes := writes w; disk := disk w;
     session_log := session_log w;
     draws := draws w; calls := S (calls w); outbox := outbox w |}.

Definition post_to_outbox (m t : list N) (w : world) : world :=
  {| control_file := control_file w; writes := writes w; disk := disk w;
     session_log := session_log w;
     draws := draws w; calls := calls w; outbox := outbox w ++ [(m, t)] |}.

(** ** The monad: state over [world], results in [res] *)

Definition M (A : Type) : Type := world -> res A * world.

Definition ret {A} (a : A) : M A := fun w => (Ok a, w).

Definition bind {A B} (m : M A) (k : A -> M B) : M B :=
  fun w => match m w with
           | (Ok a, w') => k a w'
           | (Raise e, w') => (Raise e, w')
           end.

Definition raise {A} (e : exn) : M A := fun w => (Raise e, w).

(** [try: m  except: h]; what [m] did to the world before raising stays. *)
Definition try_except {A} (m : M A) (h : exn -> M A) : M A :=
  fun w => match m w with
           | (Ok a, w') => (Ok a, w')
           | (Raise e, w') => h e w'
           end.

Definition modify (f : world -> world) : M unit := fun w => (Ok tt, f w).

Declare Scope py_scope.
Delimit Scope py_scope with py.
Notation "x <- m ;; k" := (bind m (fun x => k))
  (at level 100, m at next level, right associativity) : py_scope.
Notation "m ;;; k" := (bind m (fun _ => k))
  (at level 100, right associativity) : py_scope.
Open Scope py_scope.

(** [for x in xs: body x] *)
Fixpoint for_each {A} (xs : list A) (body : A -> M unit) : M unit :=
  match xs with
  | [] => ret tt
  | x :: rest => body x ;;; for_each rest body
  end.

(** ** The persistent control store (app.py, lines 34-58) *)

Definition DEFAULT_CONTROL : json :=
  JObject (<[lit "date" := PNone]>
           (<[lit "sent" := PList []]>
            (<[lit "random_times" := PList []]> ∅))).

(** [CONTROL_FILE.exists()] *)
Definition file_exists : M bool :=
  fun w => (Ok (match control_file w with Absent => false | _ => true end), w).

(** [json.loads(CONTROL_FILE.read_text())] *)
Definition read_json : M json :=
  fun w => match control_file w with
           | Holds j => (Ok j, w)
           | Corrupt => (Raise JSONDecodeError, w)
           | Unreadable | Absent => (Raise OSError, w)
           end.

Definition load_control : M json :=
  found <- try_except
             (there <- file_exists ;;
              if there : bool
              then (data <- read_json ;; ret (Some data))
              else ret None)
             (fun _ => ret None) ;;
  match found with
  | Some data => ret data
  | None => ret DEFAULT_CONTROL
  end.

(** [CONTROL_FILE.write_text(json.dumps(data, ensure_ascii=False))]: the
    attempt is counted, and the file system decides what becomes of it. *)
Definition write_json (data : json) : M unit :=
  fun w =>
    match disk w (writes w) with
    | Written => (Ok tt, set_file (Holds data) w)
    | WrittenUnreadable => (Ok tt, set_file Unreadable w)
    | OpenFails => (Raise OSError, set_file (control_file w) w)
    | WriteFails e => (Raise e, set_file Corrupt w)
    end.

Definition save_control (data : json) : M unit :=
  try_except (write_json data) (fun _ => ret tt).

(** ** Operations of Python on stored values *)

(** [control[key]]: only a dict can be indexed by a string. *)
Definition getitem (control : json) (key : list N) : M pyval :=
  match control with
  | JObject d => match d !! key with
                 | Some v => ret v
                 | None => raise (KeyError (Some key))
                 end
  | JOther => raise TypeError
  end.

(** [control.get(key, [])] *)
Definition get_or_empty (control : json) (key : list N) : M pyval :=
  match control with
  | JObject d => match d !! key with
                 | Some v => ret v
                 | None => ret (PList [])
                 end
  | JOther => raise AttributeError
  end.

Definition elem_is_str (key : list N) (e : elem) : bool :=
  match e with
  | EStr s => pystr_eqb s key
  | _ => false
  end.

(** [needle in haystack] on text: a substring test. *)
Fixpoint is_prefix (p s : list N) : bool :=
  match p, s with
  | [], _ => true
  | _ :: _, [] => false
  | a :: p', b :: s' => N.eqb a b && is_prefix p' s'
  end.

Fixpoint is_substring (p s : list N) : bool :=
  is_prefix p s ||
  match s with
  | [] => false
  | _ :: s' => is_substring p s'
  end.

(** [key in v] *)
Definition contains (v : pyval) (key : list N) : M bool :=
  match v with
  | PList l => ret (existsb (elem_is_str key) l)
  | PStr s => ret (is_substring key s)
  | PNone | PInt _ => raise TypeError
  end.

(** [v.append(key)]: the list after the call. *)
Definition append (v : pyval) (key : list N) : M pyval :=
  match v with
  | PList l => ret (PList (l ++ [EStr key]))
  | _ => raise AttributeError
  end.

(** The dict [control] after its list under [key] was changed in place. *)
Definition with_item (control : json) (key : list N) (v : pyval) : json :=
  match control with
  | JObject d => JObject (<[key := v]> d)
  | JOther => JOther
  end.

(** ** The slot claim (app.py, lines 61-72) *)

Definition mark_as_sent (key : list N) : M bool :=
  control <- load_control ;;
  sent <- getitem control (lit "sent") ;;
  present <- contains sent key ;;
  if present : bool then ret false
  else
    sent' <- append sent key ;;
    save_control (with_item control (lit "sent") sent') ;;;
    ret true.

(** ** Configuration (app.py, lines 78-92) *)

Record schedule := {
  time : Z * Z;
  sanctuary : list N;
  theme : list N
}.

Definition CABECA : list N := lit "cabe" ++ [231%N] ++ lit "a".
Definition PELVIS : list N := lit "p" ++ [233%N] ++ lit "lvis".
Definition CORACAO : list N := lit "cora" ++ [231%N; 227%N] ++ lit "o".
Definition INTENCAO : list N := lit "inten" ++ [231%N; 227%N] ++ lit "o".
Definition RENOVACAO : list N := lit "renova" ++ [231%N; 227%N] ++ lit "o".
Definition REFLEXAO : list N := lit "reflex" ++ [227%N] ++ lit "o".

Definition FIXED_SCHEDULES : list schedule :=
  [ {| time := (8, 0)%Z; sanctuary := CABECA; theme := INTENCAO |};
    {| time := (12, 0)%Z; sanctuary := PELVIS; theme := RENOVACAO |};
    {| time := (20, 0)%Z; sanctuary := CORACAO; theme := REFLEXAO |} ].

Definition RANDOM_WINDOWS : list (Z * Z * Z * Z) :=
  [ (9, 0, 10, 59)%Z; (14, 0, 18, 59)%Z ].

(** ** Truncation of a message (app.py, lines 283-291, in send_pushover) *)

Definition MAX_CHARS : Z := 1024.
Definition PERIOD : N := 46.
Definition ELLIPSIS : N := 8230.

(** [str.isspace] of one code point. *)
Definition is_space (c : N) : bool :=
  ((9 <=? c) && (c <=? 13) || (28 <=? c) && (c <=? 32) ||
   (c =? 133) || (c =? 160) || (c =? 5760) ||
   (8192 <=? c) && (c <=? 8202) || (c =? 8232) || (c =? 8233) ||
   (c =? 8239) || (c =? 8287) || (c =? 12288))%N.

(** [s.rstrip()] *)
Fixpoint rstrip (s : list N) : list N :=
  match s with
  | [] => []
  | c :: rest =>
      match rstrip rest with
      | [] => if is_space c then [] else [c]
      | kept => c :: kept
      end
  end.

Fixpoint rfind_from (c : N) (s : list N) (i last : Z) : Z :=
  match s with
  | [] => last
  | x :: rest => rfind_from c rest (i + 1) (if N.eqb x c then i else last)
  end.

(** [s.rfind(c)]: the highest index of [c] in [s], or [-1]. *)
Definition rfind (s : list N) (c : N) : Z := rfind_from c s 0 (-1).

(** The comparison [last_period > MAX_CHARS * 0.5] of an int with the float
    512.0 is exact; it is written here over the integers. *)
Definition truncate (message : list N) : list N :=
  if (Z.of_nat (length message) >? MAX_CHARS)%Z then
    let truncated := take (Z.to_nat MAX_CHARS) message in
    let last_period := rfind truncated PERIOD in
    if (2 * last_period >? MAX_CHARS)%Z
    then take (Z.to_nat (last_period + 1)) truncated
    else rstrip truncated ++ [ELLIPSIS]
  else message.

(** ** The session log *)

Definition LOG_BOUND : nat := 20.

(** [l[-n:]] *)
Definition last_n {A} (n : nat) (l : list A) : list A :=
  drop (length l - n) l.

(** Lines 391-393 and 409-411 of scheduler_loop:
    [log_entry = st.session_state.get("log", [])], [log_entry.append(result)],
    [st.session_state["log"] = log_entry[-20:]].  They run in the scheduler
    thread, where [st.session_state] is a state of its own, empty when read
    and dropped after the statement: the list read is the default, and the
    cut list is stored where the page does not look. *)
Definition log_result (result : delivery_result) : M unit :=
  fun w =>
    let log_entry := default [] (@None (list delivery_result)) in
    let log_entry := log_entry ++ [result] in
    let dropped := last_n LOG_BOUND log_entry in
    (Ok tt, w).

(** Lines 457-458 of main. *)
Definition init_log : M unit :=
  fun w => match session_log w with
           | Some _ => (Ok tt, w)
           | None => (Ok tt, set_log [] w)
           end.

(** Line 545 of main: [st.session_state["log"].append(result)]. *)
Definition log_append (result : delivery_result) : M unit :=
  fun w => match session_log w with
           | Some l => (Ok tt, set_log (l ++ [result]) w)
           | None => (Raise (KeyError (Some (lit "log"))), w)
           end.

(** ** The program over its environment *)

Inductive prompt :=
| FixedPrompt (sanctuary theme : list N) (secondary : nat)
| RandomPrompt (theme connection : nat).

Record datetime := {
  today_str : list N;   (* now.strftime("%Y-%m-%d") *)
  hour : Z;
  minute : Z
}.

Section Program.

(** The n-th value the random generator gives. *)
Variable rng : nat -> Z.
(** The answer of the text service to the request made as the n-th call. *)
Variable anthropic_api : nat -> prompt -> res (list N).
(** Status code and body the push service answers to the n-th call. *)
Variable pushover_api : nat -> list N -> list N -> res (Z * list N).
(** [st.secrets] *)
Variable secrets : gmap (list N) (list N).
(** [now_local().strftime("%Y-%m-%d %H:%M:%S")] read after n calls. *)
Variable wall_clock : nat -> list N.

(** [random.randint(a, b)] *)
Definition randint (a b : Z) : M Z :=
  fun w =>
    if (b <? a)%Z then (Raise ValueError, w)
    else (Ok (a + rng (draws w) mod (b - a + 1))%Z, tick_draws w).

(** [random.choice(seq)] for a sequence of [n] entries: the index chosen. *)
Definition random_choice (n : nat) : M nat :=
  fun w =>
    match n with
    | O => (Raise IndexError, w)
    | _ => (Ok (Z.to_nat (rng (draws w) mod Z.of_nat n)), tick_draws w)
    end.

(** [st.secrets[key]] *)
Definition secret (key : list N) : M (list N) :=
  match secrets !! key with
  | Some v => ret v
  | None => raise (KeyError (Some key))
  end.

(** *** Prompts (app.py, lines 143-247); the wording of the templates is
    not modelled, only what selects it. *)

Definition get_prompt_for_fixed (sanctuary theme : option (list N)) : M prompt :=
  match sanctuary with
  | Some s =>
      if bool_decide (s = CABECA \/ s = PELVIS \/ s = CORACAO) then
        chosen_theme <- random_choice 14 ;;
        match theme with
        | Some t => ret (FixedPrompt s t chosen_theme)
        | None => raise AttributeError
        end
      else raise (KeyError (Some s))
  | None => raise (KeyError None)
  end.

Definition get_prompt_for_random : M prompt :=
  chosen_theme <- random_choice 10 ;;
  chosen_connection <- random_choice 9 ;;
  ret (RandomPrompt chosen_theme chosen_connection).

(** *** Generation and delivery (app.py, lines 264-337) *)

Definition messages_create (p : prompt) : M (list N) :=
  fun w => (anthropic_api (calls w) p, tick_calls w).

Definition generate_message (p : prompt) : M (list N) :=
  try_except
    (_ <- secret (lit "ANTHROPIC_API_KEY") ;;
     messages_create p)
    (fun e => ret (lit "[Erro ao gerar mensagem: " ++ exn_str e ++ lit "]")).

Definition requests_post (message title : list N) : M (Z * list N) :=
  fun w => (pushover_api (calls w) message title,
            post_to_outbox message title (tick_calls w)).

Definition DEFAULT_TITLE : list N := [127801%N] ++ lit " Rosacruz " ++ [193%N] ++ lit "urea".

Definition send_pushover (message title : list N) : M pushover_result :=
  try_except
    (let message := truncate message in
     _ <- secret (lit "PUSHOVER_USER_KEY") ;;
     _ <- secret (lit "PUSHOVER_API_TOKEN") ;;
     r <- requests_post message title ;;
     ret (Posted (fst r) (snd r)))
    (fun e => ret (Failed (exn_str e))).

Definition TITLE_CABECA : list N :=
  [129504%N] ++ lit " Santu" ++ [225%N] ++ lit "rio da Cabe" ++ [231%N] ++
  lit "a " ++ [8212%N] ++ lit " Inten" ++ [231%N; 227%N] ++ lit "o".
Definition TITLE_PELVIS : list N :=
  [9889%N] ++ lit " Santu" ++ [225%N] ++ lit "rio da P" ++ [233%N] ++
  lit "lvis " ++ [8212%N] ++ lit " Renova" ++ [231%N; 227%N] ++ lit "o".
Definition TITLE_CORACAO : list N :=
  [128150%N] ++ lit " Santu" ++ [225%N] ++ lit "rio do Cora" ++
  [231%N; 227%N] ++ lit "o " ++ [8212%N] ++ lit " Reflex" ++ [227%N] ++ lit "o".
Definition TITLE_INTEGRACAO : list N :=
  [127801%N] ++ lit " Os Tr" ++ [234%N] ++ lit "s Santu" ++ [225%N] ++
  lit "rios " ++ [8212%N] ++ lit " Integra" ++ [231%N; 227%N] ++ lit "o".

(** [title_map.get(sanctuary, DEFAULT_TITLE)] *)
Definition title_map_get (sanctuary : option (list N)) : list N :=
  match sanctuary with
  | Some s =>
      if bool_decide (s = CABECA) then TITLE_CABECA
      else if bool_decide (s = PELVIS) then TITLE_PELVIS
      else if bool_decide (s = CORACAO) then TITLE_CORACAO
      else DEFAULT_TITLE
  | None => DEFAULT_TITLE
  end.

(** [sanctuary or "todos"] *)
Definition sanctuary_or_todos (sanctuary : option (list N)) : list N :=
  match sanctuary with
  | Some (c :: s) => c :: s
  | _ => lit "todos"
  end.

Definition now_local_text : M (list N) :=
  fun w => (Ok (wall_clock (calls w)), w).

Definition generate_and_send (schedule_type : list N)
    (sanctuary theme : option (list N)) : M delivery_result :=
  pt <- (if pystr_eqb schedule_type (lit "fixed")
         then p <- get_prompt_for_fixed sanctuary theme ;;
              ret (p, title_map_get sanctuary)
         else p <- get_prompt_for_random ;;
              ret (p, TITLE_INTEGRACAO)) ;;
  message <- generate_message (fst pt) ;;
  result <- send_pushover message (snd pt) ;;
  stamp <- now_local_text ;;
  ret {| timestamp := stamp; type := schedule_type;
         result_sanctuary := sanctuary_or_todos sanctuary;
         message := message; pushover := result |}.

(** *** The day's random times (app.py, lines 340-350) *)

Fixpoint random_times_in (windows : list (Z * Z * Z * Z)) : M (list (Z * Z)) :=
  match windows with
  | [] => ret []
  | (start_h, start_m, end_h, end_m) :: rest =>
      let total_start := (start_h * 60 + start_m)%Z in
      let total_end := (end_h * 60 + end_m)%Z in
      rand_minutes <- randint total_start total_end ;;
      let h := (rand_minutes / 60)%Z in
      let m := (rand_minutes mod 60)%Z in
      times <- random_times_in rest ;;
      ret ((h, m) :: times)
  end.

Definition generate_random_times_for_today : M (list (Z * Z)) :=
  random_times_in RANDOM_WINDOWS.

(** *** The scheduler (app.py, lines 357-426) *)

(** The record written on a new day; [[h, m] for h, m in random_times]. *)
Definition fresh_control (today : list N) (random_times : list (Z * Z)) : json :=
  JObject (<[lit "date" := PStr today]>
           (<[lit "sent" := PList []]>
            (<[lit "random_times" :=
                 PList (map (fun hm => EInts [fst hm; snd hm]) random_times)]> ∅))).

(** [v != s] for a stored value and a string. *)
Definition differs_from (v : pyval) (s : list N) : bool :=
  match v with
  | PStr d => negb (pystr_eqb d s)
  | _ => true
  end.

(** Lines 366-377: the block under [with THREAD_LOCK] that opens each tick. *)
Definition ensure_today (today : list N) : M unit :=
  control <- load_control ;;
  date <- getitem control (lit "date") ;;
  if differs_from date today then
    random_times <- generate_random_times_for_today ;;
    save_control (fresh_control today random_times)
  else ret tt.

(** [f"fixed_{sched_time[0]}_{sched_time[1]}"] *)
Definition fixed_key (sched_time : Z * Z) : list N :=
  lit "fixed_" ++ str_int (fst sched_time) ++ lit "_" ++ str_int (snd sched_time).

(** [f"random_{rt[0]}_{rt[1]}"] for a pair of integers. *)
Definition random_key (rt : Z * Z) : list N :=
  lit "random_" ++ str_int (fst rt) ++ lit "_" ++ str_int (snd rt).

(** Lines 388-397 and 406-415: the delivery of a claimed slot and its entry
    in the log, each under its own [try]. *)
Definition deliver (schedule_type : list N)
    (sanctuary theme : option (list N)) : M unit :=
  try_except
    (result <- generate_and_send schedule_type sanctuary theme ;;
     try_except (log_result result) (fun _ => ret tt))
    (fun _ => ret tt).

(** Lines 383-397: the body of the loop over FIXED_SCHEDULES. *)
Definition fixed_slot (current_hm : Z * Z) (sch : schedule) : M unit :=
  let sched_time := time sch in
  let key := fixed_key sched_time in
  if bool_decide (current_hm = sched_time) then
    claimed <- mark_as_sent key ;;
    if claimed : bool
    then deliver (lit "fixed") (Some (sanctuary sch)) (Some (theme sch))
    else ret tt
  else ret tt.

(** What a [for] loop or [tuple()] draws from a stored value. *)
Inductive atom :=
| AInt (z : Z)
| AChar (c : N)
| AFloat (whole : option Z) (text : list N)
| ABool (b : bool)
| AOther (text : list N).

#[global] Instance atom_eq_dec : EqDecision atom.
Proof. solve_decision. Defined.

Definition iterate (v : pyval) : M (list elem) :=
  match v with
  | PList l => ret l
  | PStr s => ret (map (fun c => EStr [c]) s)
  | PNone | PInt _ => raise TypeError
  end.

Definition atom_of (x : scalar) : atom :=
  match x with
  | SInt z => AInt z
  | SFloat whole text => AFloat whole text
  | SBool b => ABool b
  | SOther text => AOther text
  end.

(** [tuple(rand_time)] *)
Definition tuple_of (rand_time : elem) : M (list atom) :=
  match rand_time with
  | EInts l => ret (map AInt l)
  | EMixed l => ret (map atom_of l)
  | EStr s => ret (map AChar s)
  | ENone | EInt _ => raise TypeError
  end.

(** [rt[i]] *)
Definition index (rt : list atom) (i : nat) : M atom :=
  match rt !! i with
  | Some a => ret a
  | None => raise IndexError
  end.

Definition str_atom (a : atom) : list N :=
  match a with
  | AInt z => str_int z
  | AChar c => [c]
  | AFloat _ text => text
  | ABool true => lit "True"
  | ABool false => lit "False"
  | AOther text => text
  end.

(** [a == n] for an entry of the tuple and an integer of the clock. *)
Definition atom_eq_int (a : atom) (n : Z) : bool :=
  match a with
  | AInt z => Z.eqb z n
  | AFloat whole _ => bool_decide (whole = Some n)
  | ABool b => Z.eqb (if b then 1 else 0) n
  | AChar _ | AOther _ => false
  end.

(** [current_hm == rt] for the pair of the clock and the tuple. *)
Definition tuple_eq (current_hm : Z * Z) (rt : list atom) : bool :=
  match rt with
  | [a; b] => atom_eq_int a (fst current_hm) && atom_eq_int b (snd current_hm)
  | _ => false
  end.

(** Lines 402-415: the body of the loop over the stored random times. *)
Definition random_slot (current_hm : Z * Z) (rand_time : elem) : M unit :=
  rt <- tuple_of rand_time ;;
  rt0 <- index rt 0 ;;
  rt1 <- index rt 1 ;;
  let key := lit "random_" ++ str_atom rt0 ++ lit "_" ++ str_atom rt1 in
  if tuple_eq current_hm rt then
    claimed <- mark_as_sent key ;;
    if claimed : bool
    then deliver (lit "random") None None
    else ret tt
  else ret tt.

(** Lines 379-415: the two loops over the slots, at the clock reading
    [now]. *)
Definition check_slots (now : datetime) : M unit :=
  let current_hm := (hour now, minute now) in
  for_each FIXED_SCHEDULES (fixed_slot current_hm) ;;;
  control <- load_control ;;
  times <- get_or_empty control (lit "random_times") ;;
  entries <- iterate times ;;
  for_each entries (random_slot current_hm).

(** One pass of the [while True] body at the clock reading [now].  The
    closing update of the page's own session keys (lines 418-423) sits in a
    [try] with a bare [except] and touches neither the control file nor the
    log; the sleep is the gap to the next reading. *)
Definition scheduler_tick (now : datetime) : M unit :=
  ensure_today (today_str now) ;;;
  check_slots now.

(** The loop run over the clock readings of its successive passes. *)
Definition scheduler_loop (nows : list datetime) : M unit :=
  for_each nows scheduler_tick.

(** *** The manual send of the page (app.py, lines 456-458 and 534-545) *)

Definition main_send (msg_type : list N) : M delivery_result :=
  result <-
    (if is_substring (lit "Cabe" ++ [231%N] ++ lit "a") msg_type
     then generate_and_send (lit "fixed") (Some CABECA) (Some INTENCAO)
     else if is_substring (lit "P" ++ [233%N] ++ lit "lvis") msg_type
     then generate_and_send (lit "fixed") (Some PELVIS) (Some RENOVACAO)
     else if is_substring (lit "Cora" ++ [231%N; 227%N] ++ lit "o") msg_type
     then generate_and_send (lit "fixed") (Some CORACAO) (Some REFLEXAO)
     else generate_and_send (lit "random") None None) ;;
  log_append result ;;;
  ret result.

(** Lines 463-471 of main: the secrets that are absent or empty. *)
Definition missing_secrets : list (list N) :=
  List.filter (fun key => match secrets !! key with
                          | Some (_ :: _) => false
                          | _ => true
                          end)
         [lit "ANTHROPIC_API_KEY"; lit "PUSHOVER_USER_KEY";
          lit "PUSHOVER_API_TOKEN"].

(** One run of the page script, as far as the log goes: the log is created
    when missing, the run stops when a secret is missing, and a pressed
    button sends the selected kind of message. *)
Definition main (pressed : option (list N)) : M unit :=
  init_log ;;;
  match missing_secrets with
  | _ :: _ => ret tt
  | [] =>
      match pressed with
      | Some msg_type => _ <- main_send msg_type ;; ret tt
      | None => ret tt
      end
  end.

(** The runs of the page script in one session, one after the other; each
    entry tells whether the button was pressed and with which selection. *)
Definition main_runs (presses : list (option (list N))) : M unit :=
  for_each presses main.

End Program.

(** ** The start of the scheduler thread (app.py, lines 429-439) *)

(** What [start_scheduler] reads and writes: the flag [_scheduler_started]
    of the process with the number of threads started so far, and the two
    keys of the calling session. *)
Record process := {
  scheduler_started : bool;
  threads_started : nat
}.

Record session := {
  scheduler_started_at : option (list N);
  scheduler_running : bool
}.

(** One call, by a session, at the clock text [stamp]. *)
Definition start_scheduler (stamp : list N) (ps : process * session)
  : process * session :=
  let '(p, s) := ps in
  let '(p, s) :=
    if negb (scheduler_started p) then
      ({| scheduler_started := true;
          threads_started := S (threads_started p) |},
       {| scheduler_started_at := Some stamp;
          scheduler_running := scheduler_running s |})
    else (p, s) in
  (p, {| scheduler_started_at := scheduler_started_at s;
         scheduler_running := true |}).

(** One run of the page script that reaches line 492.  The script is
    executed from its first line at every run: line 39,
    [_scheduler_started = False], is executed again before [main] and its
    call of [start_scheduler]; the threads that earlier runs started go
    on. *)
Definition script_run (stamp : list N) (ps : process * session)
  : process * session :=
  let '(p, s) := ps in
  start_scheduler stamp
    ({| scheduler_started := false; threads_started := threads_started p |}, s).

(** The runs of the script in one process, one after the other: each entry
    is the clock text of the run and the session that runs, as it is before
    the run; the result is the process and the sessions after their runs. *)
Fixpoint script_runs (runs : list (list N * session))
    (p : process) : process * list session :=
  match runs with
  | [] => (p, [])
  | (stamp, s) :: rest =>
      let '(p1, s1) := script_run stamp (p, s) in
      let '(p2, others) := script_runs rest p1 in
      (p2, s1 :: others)
  end.

(** * The vocabulary of the properties *)

(** What [load_control] hands out for each state of the file. *)
Definition stored_control (f : file_state) : json :=
  match f with
  | Holds j => j
  | Absent | Unreadable | Corrupt => DEFAULT_CONTROL
  end.

(** The world after [save_control data]: the attempt is counted and the
    file is what the file system made of it. *)
Definition after_write (data : json) (w : world) : world :=
  match disk w (writes w) with
  | Written => set_file (Holds data) w
  | WrittenUnreadable => set_file Unreadable w
  | OpenFails => set_file (control_file w) w
  | WriteFails _ => set_file Corrupt w
  end.

(** Every write of the control file takes effect. *)
Definition sound_disk (w : world) : Prop := forall n, disk w n = Written.

(** [key in sent] for a stored list. *)
Definition key_in (l : list elem) (key : list N) : bool :=
  existsb (elem_is_str key) l.

(** The calls [mark_as_sent k1; mark_as_sent k2; ...] of one day, in the
    order the lock admits them, with the answer of each. *)
Fixpoint claim_all (keys : list (list N)) : M (list bool) :=
  match keys with
  | [] => ret []
  | key :: rest =>
      answer <- mark_as_sent key ;;
      answers <- claim_all rest ;;
      ret (answer :: answers)
  end.

(** The answers that went to the calls made with key [k]. *)
Fixpoint answers_for (k : list N) (keys : list (list N)) (answers : list bool)
  : list bool :=
  match keys, answers with
  | key :: keys', b :: bs =>
      if bool_decide (key = k) then b :: answers_for k keys' bs
      else answers_for k keys' bs
  | _, _ => []
  end.

(** How many of the calls were made with key [k]. *)
Fixpoint calls_with (k : list N) (keys : list (list N)) : nat :=
  match keys with
  | [] => 0
  | key :: keys' =>
      if bool_decide (key = k) then S (calls_with k keys') else calls_with k keys'
  end.

(** The stored record has a list under [sent]. *)
Definition sent_of (w : world) : option (list elem) :=
  match stored_control (control_file w) with
  | JObject d => match d !! lit "sent" with
                 | Some (PList l) => Some l
                 | _ => None
                 end
  | JOther => None
  end.

(** A time of day [(h, m)] lies in a window [(start_h, start_m, end_h,
    end_m)]: in minutes it is between the two ends, both included. *)
Definition in_window (win : Z * Z * Z * Z) (hm : Z * Z) : Prop :=
  let '(start_h, start_m, end_h, end_m) := win in
  (start_h * 60 + start_m <= fst hm * 60 + snd hm <= end_h * 60 + end_m)%Z /\
  (0 <= snd hm < 60)%Z.

Definition window_ordered (win : Z * Z * Z * Z) : Prop :=
  let '(start_h, start_m, end_h, end_m) := win in
  (start_h * 60 + start_m <= end_h * 60 + end_m)%Z.

(** The parts of the world a computation leaves alone. *)
Definition same_file (w w' : world) : Prop :=
  control_file w' = control_file w /\ writes w' = writes w /\
  disk w' = disk w.

Definition same_log (w w' : world) : Prop :=
  session_log w' = session_log w.

(** Neither the control file nor the session log changes. *)
Definition same_store (w w' : world) : Prop := same_file w w' /\ same_log w w'.

(** Whatever [m] returns or raises, the world after it is [R]-related to
    the world before it. *)
Definition keeps (R : world -> world -> Prop) {A} (m : M A) : Prop :=
  forall w, R w (snd (m w)).

(** A stored entry of [random_times] the loop can read: a list of at least
    two integers. *)
Definition time_entry (e : elem) : Prop :=
  exists zs, e = EInts zs /\ 2 <= length zs.

(** The record the program keeps: an object with a [date], a list under
    [sent] and, under [random_times] when present, a list of time entries.
    The default state and every record the program writes are of this
    kind. *)
Definition well_formed (w : world) : Prop :=
  exists d date sent,
    stored_control (control_file w) = JObject d /\
    d !! lit "date" = Some date /\
    d !! lit "sent" = Some (PList sent) /\
    match d !! lit "random_times" with
    | None => True
    | Some (PList times) => Forall time_entry times
    | Some _ => False
    end.

(** [k] is in the stored [sent]. *)
Definition has_key (k : list N) (w : world) : Prop :=
  exists sent, sent_of w = Some sent /\ key_in sent k = true.

(** The stored [date] is the text [today]. *)
Definition date_is (today : list N) (w : world) : Prop :=
  exists d, stored_control (control_file w) = JObject d /\
            d !! lit "date" = Some (PStr today).

(** The stored record of [w'] is that of [w] with entries added at the end
    of [sent], and nothing else changed. *)
Definition grows (w w' : world) : Prop :=
  forall d sent,
    stored_control (control_file w) = JObject d ->
    d !! lit "sent" = Some (PList sent) ->
    exists more,
      stored_control (control_file w') =
        JObject (<[lit "sent" := PList (sent ++ more)]> d).

(** While the writes take effect, the stored record only gains keys. *)
Definition steady (w w' : world) : Prop :=
  sound_disk w -> sound_disk w' /\ grows w w'.

(** A well-formed record stays well formed. *)
Definition stays_well_formed (w w' : world) : Prop :=
  well_formed w -> well_formed w'.

(** The list stored under [random_times]. *)
Definition times_of (w : world) : option (list elem) :=
  match stored_control (control_file w) with
  | JObject d => match d !! lit "random_times" with
                 | Some (PList l) => Some l
                 | _ => None
                 end
  | JOther => None
  end.

(** The claim keys of the slots of a day whose random times are [times]:
    those of the fixed table, then those of the random times. *)
Definition slot_keys (times : list (Z * Z)) : list (list N) :=
  map (fun sch => fixed_key (time sch)) FIXED_SCHEDULES ++ map random_key times.

(** The clock times of the slots of that day. *)
Definition slot_times (times : list (Z * Z)) : list (Z * Z) :=
  map time FIXED_SCHEDULES ++ times.

(** The POSTs made stay the same. *)
Definition same_outbox (w w' : world) : Prop := outbox w' = outbox w.

(** A key the pass at the clock reading [now] may claim: that of a fixed
    slot of the table whose time is the reading, or that of a random slot at
    the reading. *)
Definition due_key (now : datetime) (key : list N) : Prop :=
  ((hour now, minute now) ∈ map time FIXED_SCHEDULES /\
   key = fixed_key (hour now, minute now)) \/
  key = random_key (hour now, minute now).

(** For a well-formed record, while the writes take effect: from [w] to
    [w'] the stored record only gained keys at the end of [sent]; the keys gained satisfy [K], are
    pairwise distinct and were not in [sent] before; and no more POSTs were
    made than keys were gained. *)
Definition posts_covered (K : list N -> Prop) (w w' : world) : Prop :=
  sound_disk w -> well_formed w ->
  sound_disk w' /\ well_formed w' /\
  forall d sent,
    stored_control (control_file w) = JObject d ->
    d !! lit "sent" = Some (PList sent) ->
    exists keys posts,
      stored_control (control_file w') =
        JObject (<[lit "sent" := PList (sent ++ map EStr keys)]> d) /\
      outbox w' = outbox w ++ posts /\
      length posts <= length keys /\
      Forall K keys /\
      NoDup keys /\
      Forall (fun k => key_in sent k = false) keys.

(** The stored [sent], when it is a list, has no entry twice. *)
Definition sent_distinct (w : world) : Prop :=
  forall sent, sent_of w = Some sent -> NoDup sent.

Definition keeps_distinct (w w' : world) : Prop :=
  sent_distinct w -> sent_distinct w'.

(** * Sample worlds, clock readings and services *)

Definition empty_world : world :=
  {| control_file := Absent; writes := 0; disk := fun _ => Written;
     session_log := None;
     draws := 0; calls := 0; outbox := [] |}.

Definition world_holding (j : json) : world :=
  {| control_file := Holds j; writes := 0; disk := fun _ => Written;
     session_log := None;
     draws := 0; calls := 0; outbox := [] |}.

(** The file holds [j] and is read-only: every attempt to write it fails at
    [open]. *)
Definition read_only_world (j : json) : world :=
  {| control_file := Holds j; writes := 0; disk := fun _ => OpenFails;
     session_log := None;
     draws := 0; calls := 0; outbox := [] |}.

Definition rng_zero : nat -> Z := fun _ => 0%Z.

(** Services that fail at every call, and a page without secrets. *)
Definition anthropic_down : nat -> prompt -> res (list N) :=
  fun _ _ => Raise (ServiceError (lit "overloaded")).
Definition pushover_down : nat -> list N -> list N -> res (Z * list N) :=
  fun _ _ _ => Raise (ServiceError (lit "timed out")).
Definition no_secrets : gmap (list N) (list N) := ∅.
Definition clock_text : nat -> list N := fun _ => lit "2024-01-01 08:00:00".

(** Services that answer, and a page with its three secrets. *)
Definition anthropic_up : nat -> prompt -> res (list N) :=
  fun _ _ => Ok (lit "Paz.").
Definition pushover_up : nat -> list N -> list N -> res (Z * list N) :=
  fun _ _ _ => Ok (200%Z, lit "ok").
Definition all_secrets : gmap (list N) (list N) :=
  <[lit "ANTHROPIC_API_KEY" := lit "sk-ant"]>
  (<[lit "PUSHOVER_USER_KEY" := lit "u"]>
   (<[lit "PUSHOVER_API_TOKEN" := lit "a"]> ∅)).

(** The fourth choice of the page's radio: the integration message. *)
Definition RADIO_INTEGRACAO : list N :=
  lit "Integra" ++ [231%N; 227%N] ++ lit "o dos 3 Santu" ++ [225%N] ++ lit "rios".

Definition DAY_ONE : list N := lit "2024-01-01".
Definition at_0800 : datetime :=
  {| today_str := DAY_ONE; hour := 8; minute := 0 |}.
Definition at_1200 : datetime :=
  {| today_str := DAY_ONE; hour := 12; minute := 0 |}.

Definition at_0700 : datetime :=
  {| today_str := DAY_ONE; hour := 7; minute := 0 |}.
Definition DAY_TWO : list N := lit "2024-01-02".
Definition next_day_0800 : datetime :=
  {| today_str := DAY_TWO; hour := 8; minute := 0 |}.

Definition KEY_0800 : list N := fixed_key (8, 0)%Z.

(** The first slot of the fixed table, and a sanctuary that is not in it. *)
Definition SLOT_0800 : schedule :=
  {| time := (8, 0)%Z; sanctuary := CABECA; theme := INTENCAO |}.
Definition UNKNOWN_SANCTUARY : list N := lit "alma".

(** Two sessions that open the page one after the other in a new process. *)
Definition new_process : process :=
  {| scheduler_started := false; threads_started := 0 |}.
Definition new_session : session :=
  {| scheduler_started_at := None; scheduler_running := false |}.

(** A stored object dated today that has no [sent] member. *)
Definition record_without_sent : json :=
  JObject (<[lit "date" := PStr DAY_ONE]> ∅).

(** A record of the day the program wrote. *)
Definition record_of_day_one : json :=
  fresh_control DAY_ONE [(9, 30)%Z; (15, 0)%Z].

(** The record of day one after the slot of 08:00 was claimed. *)
Definition record_with_claim : json :=
  JObject (<[lit "date" := PStr DAY_ONE]>
           (<[lit "sent" := PList [EStr KEY_0800]]>
            (<[lit "random_times" :=
                 PList [EInts [9; 30]%Z; EInts [15; 0]%Z]]> ∅))).

(** 1124 characters without a period; the 1023rd and 1024th are spaces. *)
Definition message_with_spaces : list N :=
  repeat 97%N 1022 ++ [32%N; 32%N] ++ repeat 98%N 100.

(** 1200 characters whose only period has index 600. *)
Definition message_with_period : list N :=
  repeat 97%N 600 ++ [46%N] ++ repeat 98%N 599.

(** 1025 characters, neither period nor space. *)
Definition message_of_1025 : list N := repeat 97%N 1025.

(** * Properties *)

(** ** Running the monad *)

Lemma bind_ok {A B} (m : M A) (k : A -> M B) w a w' :
  m w = (Ok a, w') -> bind m k w = k a w'.
Proof. intros H. unfold bind. now rewrite H. Qed.

(** ** The control store *)

Lemma load_control_run w :
  load_control w = (Ok (stored_control (control_file w)), w).
Proof.
  unfold load_control, bind, try_except, file_exists, read_json.
  destruct (control_file w) eqn:E; simpl; rewrite ?E; reflexivity.
Qed.

(** [save_control] always returns: what the write raises is swallowed. *)
Lemma save_control_run data w :
  save_control data w = (Ok tt, after_write data w).
Proof.
  unfold save_control, try_except, write_json, after_write, ret.
  destruct (disk w (writes w)); reflexivity.
Qed.

Lemma after_write_written data w :
  disk w (writes w) = Written -> after_write data w = set_file (Holds data) w.
Proof. intros H. unfold after_write. now rewrite H. Qed.

Lemma after_write_disk data w : disk (after_write data w) = disk w.
Proof. unfold after_write. destruct (disk w (writes w)); reflexivity. Qed.

Lemma after_write_sound data w : sound_disk w -> sound_disk (after_write data w).
Proof. intros H n. rewrite after_write_disk. apply H. Qed.

(** After a write, whatever became of it, the file reads as the data, as
    the default state or as it did before. *)
Lemma after_write_stored data w :
  stored_control (control_file (after_write data w)) = data \/
  stored_control (control_file (after_write data w)) = DEFAULT_CONTROL \/
  stored_control (control_file (after_write data w))
    = stored_control (control_file w).
Proof.
  unfold after_write. destruct (disk w (writes w)); simpl; tauto.
Qed.

(** C6.  Whatever the control file is (absent, unreadable, not JSON, or a
    JSON document), [load_control] raises nothing and leaves the world as it
    was; it returns the stored document when one can be read and otherwise
    exactly the default state with [date] null, [sent] empty and
    [random_times] empty. *)
Theorem load_control_never_raises (w : world) :
  exists j,
    load_control w = (Ok j, w) /\
    match control_file w with
    | Holds stored => j = stored
    | Absent | Unreadable | Corrupt =>
        j = JObject (<[lit "date" := PNone]>
                     (<[lit "sent" := PList []]>
                      (<[lit "random_times" := PList []]> ∅)))
    end.
Proof.
  exists (stored_control (control_file w)). split.
  - apply load_control_run.
  - destruct (control_file w); reflexivity.
Qed.

(** ** The claim *)

Lemma mark_as_sent_present key w d l :
  stored_control (control_file w) = JObject d ->
  d !! lit "sent" = Some (PList l) ->
  key_in l key = true ->
  mark_as_sent key w = (Ok false, w).
Proof.
  intros Hc Hs Hk. unfold mark_as_sent.
  rewrite (bind_ok _ _ _ _ _ (load_control_run w)), Hc.
  unfold getitem. rewrite Hs.
  unfold bind, ret, contains. fold (key_in l key). now rewrite Hk.
Qed.

(** A key that is not in [sent] is claimed: the answer is true whatever
    becomes of the write. *)
Lemma mark_as_sent_fresh key w d l :
  stored_control (control_file w) = JObject d ->
  d !! lit "sent" = Some (PList l) ->
  key_in l key = false ->
  mark_as_sent key w =
    (Ok true,
     after_write (JObject (<[lit "sent" := PList (l ++ [EStr key])]> d)) w).
Proof.
  intros Hc Hs Hk. unfold mark_as_sent.
  rewrite (bind_ok _ _ _ _ _ (load_control_run w)), Hc.
  unfold getitem. rewrite Hs.
  rewrite (bind_ok _ _ w (PList l) w) by reflexivity.
  unfold contains. fold (key_in l key). rewrite Hk.
  rewrite (bind_ok _ _ w false w) by reflexivity.
  rewrite (bind_ok _ _ w (PList (l ++ [EStr key])) w) by reflexivity.
  simpl with_item. now rewrite (bind_ok _ _ _ _ _ (save_control_run _ w)).
Qed.

Lemma mark_as_sent_stored key w d l :
  stored_control (control_file w) = JObject d ->
  d !! lit "sent" = Some (PList l) ->
  key_in l key = false ->
  disk w (writes w) = Written ->
  mark_as_sent key w =
    (Ok true,
     set_file (Holds (JObject (<[lit "sent" := PList (l ++ [EStr key])]> d))) w).
Proof.
  intros Hc Hs Hk Hd. rewrite (mark_as_sent_fresh key w d l Hc Hs Hk).
  now rewrite after_write_written.
Qed.

(** A refusal is the answer [Ok false]; it comes only from the branch that
    returns before any write. *)
Lemma mark_as_sent_false_inv key w :
  fst (mark_as_sent key w) = Ok false -> mark_as_sent key w = (Ok false, w).
Proof.
  unfold mark_as_sent.
  rewrite (bind_ok _ _ _ _ _ (load_control_run w)).
  destruct (stored_control (control_file w)) as [d|]; [|discriminate].
  unfold getitem. destruct (d !! lit "sent") as [v|]; [|discriminate].
  destruct v as [| z | s | l]; try discriminate.
  - unfold bind, ret, contains, append, raise.
    destruct (is_substring key s); [reflexivity | discriminate].
  - destruct (key_in l key) eqn:Hk.
    + unfold bind, ret, contains. fold (key_in l key). now rewrite Hk.
    + rewrite (bind_ok _ _ w (PList l) w) by reflexivity.
      unfold contains. fold (key_in l key). rewrite Hk.
      rewrite (bind_ok _ _ w false w) by reflexivity.
      rewrite (bind_ok _ _ w (PList (l ++ [EStr key])) w) by reflexivity.
      rewrite (bind_ok _ _ _ _ _ (save_control_run _ w)). discriminate.
Qed.

(** C9.  When [mark_as_sent key] answers false, the world after the call is
    the world before it: the control file holds the same document ([date],
    [sent] and [random_times] as they were) and the count of writes to the
    file has not moved, so no save took place. *)
Theorem mark_as_sent_refusal_writes_nothing (key : list N) (w : world) :
  fst (mark_as_sent key w) = Ok false ->
  snd (mark_as_sent key w) = w /\
  control_file (snd (mark_as_sent key w)) = control_file w /\
  writes (snd (mark_as_sent key w)) = writes w.
Proof.
  intros H. rewrite (mark_as_sent_false_inv _ _ H). now repeat split.
Qed.

(** ** Claims made one after another *)

Lemma sent_of_inv w l :
  sent_of w = Some l ->
  exists d, stored_control (control_file w) = JObject d /\
            d !! lit "sent" = Some (PList l).
Proof.
  unfold sent_of. destruct (stored_control (control_file w)) as [d|]; [|discriminate].
  destruct (d !! lit "sent") as [[| | |l']|] eqn:E; try discriminate.
  intros [= <-]. now exists d.
Qed.

Lemma sent_of_set_file d l w :
  d !! lit "sent" = Some (PList l) ->
  sent_of (set_file (Holds (JObject d)) w) = Some l.
Proof. intros H. unfold sent_of. simpl. now rewrite H. Qed.

Lemma key_in_app l key k :
  key_in (l ++ [EStr key]) k = key_in l k || bool_decide (key = k).
Proof.
  unfold key_in. rewrite existsb_app. simpl. unfold pystr_eqb.
  now rewrite orb_false_r.
Qed.

Lemma sound_disk_set_file f w : sound_disk w -> sound_disk (set_file f w).
Proof. intros H n. apply H. Qed.

Lemma mark_as_sent_sent_of key w l :
  sound_disk w ->
  sent_of w = Some l ->
  exists w',
    mark_as_sent key w = (Ok (negb (key_in l key)), w') /\
    sound_disk w' /\
    sent_of w' = Some (if key_in l key then l else l ++ [EStr key]).
Proof.
  intros Hd Hl. destruct (sent_of_inv _ _ Hl) as (d & Hc & Hs).
  destruct (key_in l key) eqn:Hk.
  - exists w. split; [|now split].
    now apply (mark_as_sent_present key w d l).
  - eexists. split; [|split].
    + now apply (mark_as_sent_stored key w d l).
    + now apply sound_disk_set_file.
    + apply sent_of_set_file. apply lookup_insert_eq.
Qed.

Lemma claim_all_run keys : forall w l k,
  sound_disk w ->
  sent_of w = Some l ->
  exists answers w' l',
    claim_all keys w = (Ok answers, w') /\
    length answers = length keys /\
    sent_of w' = Some l' /\
    (key_in l' k = key_in l k || bool_decide (0 < calls_with k keys)) /\
    answers_for k keys answers =
      match calls_with k keys with
      | O => []
      | S n => negb (key_in l k) :: repeat false n
      end.
Proof.
  induction keys as [|key keys IH]; intros w l k Hd Hl.
  - exists [], w, l. simpl. rewrite orb_false_r. now repeat split.
  - destruct (mark_as_sent_sent_of key w l Hd Hl) as (w1 & Hm & Hd1 & Hl1).
    destruct (IH w1 _ k Hd1 Hl1)
      as (bs & w2 & l2 & Hrun & Hlen & Hl2 & Hin & Hans).
    exists (negb (key_in l key) :: bs), w2, l2.
    split; [|split; [|split; [|split]]].
    + simpl. rewrite (bind_ok _ _ _ _ _ Hm), (bind_ok _ _ _ _ _ Hrun).
      reflexivity.
    + simpl. now rewrite Hlen.
    + assumption.
    + rewrite Hin. simpl. destruct (decide (key = k)) as [->|Hne].
      * rewrite (bool_decide_true (k = k)) by reflexivity.
        rewrite (bool_decide_true (0 < S _)) by lia. rewrite orb_true_r.
        destruct (key_in l k) eqn:Hk; [now rewrite Hk|].
        rewrite key_in_app, bool_decide_true by reflexivity.
        now rewrite orb_true_r.
      * rewrite (bool_decide_false (key = k)) by assumption.
        destruct (key_in l key); [reflexivity|].
        rewrite key_in_app, bool_decide_false by assumption.
        now rewrite orb_false_r.
    + simpl. rewrite Hans. destruct (decide (key = k)) as [->|Hne].
      * rewrite (bool_decide_true (k = k)) by reflexivity.
        destruct (key_in l k) eqn:Hk.
        -- rewrite Hk. simpl. destruct (calls_with k keys); reflexivity.
        -- rewrite key_in_app, bool_decide_true by reflexivity.
           rewrite orb_true_r. simpl.
           destruct (calls_with k keys); reflexivity.
      * rewrite (bool_decide_false (key = k)) by assumption.
        destruct (key_in l key); [reflexivity|].
        rewrite key_in_app, bool_decide_false by assumption.
        now rewrite orb_false_r.
Qed.

(** C1, as the code has it.  Between two replacements of the control state
    (the stored record keeps a list under [sent], which only [mark_as_sent]
    changes), and as long as every write of the control file takes effect,
    take any run of calls [mark_as_sent k1, mark_as_sent k2, ...].  Every
    call returns; among the calls made with one key [k], the first returns
    true exactly when [k] was not yet in [sent], and every later one returns
    false, so at most one call for [k] returns true; and once a call for [k]
    was made, [k] is in [sent]. *)
Theorem mark_as_sent_true_exactly_once
    (keys : list (list N)) (k : list N) (w : world) (sent : list elem) :
  sound_disk w ->
  sent_of w = Some sent ->
  exists answers w' sent',
    claim_all keys w = (Ok answers, w') /\
    length answers = length keys /\
    answers_for k keys answers =
      match calls_with k keys with
      | O => []
      | S later => negb (key_in sent k) :: repeat false later
      end /\
    count_occ bool_dec (answers_for k keys answers) true <= 1 /\
    sent_of w' = Some sent' /\
    (0 < calls_with k keys -> key_in sent' k = true).
Proof.
  intros Hd Hl.
  destruct (claim_all_run keys w sent k Hd Hl)
    as (bs & w' & l' & Hrun & Hlen & Hl' & Hin & Hans).
  exists bs, w', l'. repeat split; try assumption.
  - rewrite Hans. destruct (calls_with k keys) as [|n]; [simpl; lia|].
    assert (Hrep : count_occ bool_dec (repeat false n) true = 0).
    { apply count_occ_not_In. intros Hx. now apply repeat_spec in Hx. }
    simpl. destruct (negb (key_in sent k)); simpl; rewrite Hrep; lia.
  - intros Hpos. rewrite Hin, bool_decide_true by assumption.
    apply orb_true_r.
Qed.

(** ** The day rollover *)

Lemma same_file_refl w : same_file w w.
Proof. now repeat split. Qed.

Lemma same_file_trans w1 w2 w3 :
  same_file w1 w2 -> same_file w2 w3 -> same_file w1 w3.
Proof. intros (? & ? & ?) (? & ? & ?). repeat split; congruence. Qed.

Lemma same_file_sound w w' : same_file w w' -> sound_disk w -> sound_disk w'.
Proof. intros (_ & _ & Hd) Hs n. rewrite Hd. apply Hs. Qed.

#[global] Hint Resolve same_file_refl : core.

Section Rollover.

Variable rng : nat -> Z.

Lemma randint_run a b w :
  (a <= b)%Z ->
  randint rng a b w = (Ok (a + rng (draws w) mod (b - a + 1))%Z, tick_draws w).
Proof.
  intros Hab. unfold randint.
  destruct (b <? a)%Z eqn:E; [apply Z.ltb_lt in E; lia | reflexivity].
Qed.

Lemma randint_range a b w :
  (a <= b)%Z ->
  (a <= a + rng (draws w) mod (b - a + 1) <= b)%Z.
Proof.
  intros Hab.
  pose proof (Z.mod_pos_bound (rng (draws w)) (b - a + 1)). lia.
Qed.

Lemma random_times_in_run windows :
  Forall window_ordered windows ->
  forall w, exists times w',
    random_times_in rng windows w = (Ok times, w') /\
    Forall2 in_window windows times /\
    same_file w w' /\ same_log w w'.
Proof.
  induction 1 as [|[[[sh sm] eh] em] windows Hord _ IH]; intros w.
  - exists [], w. repeat split; constructor.
  - simpl in Hord.
    destruct (IH (tick_draws w)) as (times & w' & Hrun & Hin & Hf & Hl).
    eexists (_ :: times), w'. split; [|split; [|split]].
    + simpl. rewrite (bind_ok _ _ _ _ _ (randint_run _ _ w Hord)).
      rewrite (bind_ok _ _ _ _ _ Hrun). reflexivity.
    + constructor; [|assumption]. simpl.
      pose proof (randint_range _ _ w Hord) as Hr.
      set (r := (sh * 60 + sm + rng (draws w) mod (eh * 60 + em - (sh * 60 + sm) + 1))%Z) in *.
      pose proof (Z.div_mod r 60 ltac:(lia)).
      pose proof (Z.mod_pos_bound r 60 ltac:(lia)). lia.
    + destruct Hf as (Hf1 & Hf2 & Hf3). now repeat split.
    + exact Hl.
Qed.

Lemma RANDOM_WINDOWS_ordered : Forall window_ordered RANDOM_WINDOWS.
Proof. repeat constructor; simpl; lia. Qed.

Lemma differs_from_true v today :
  v <> PStr today -> differs_from v today = true.
Proof.
  destruct v as [| | d |]; try reflexivity.
  intros Hne. simpl. unfold pystr_eqb.
  rewrite bool_decide_false; [reflexivity | congruence].
Qed.

Lemma differs_from_same today : differs_from (PStr today) today = false.
Proof. simpl. unfold pystr_eqb. now rewrite bool_decide_true. Qed.

(** The rollover on a stale record: what the block does, step by step.
    It always returns; the new record is in the file when the write takes
    effect. *)
Lemma ensure_today_stale_run today w d date :
  stored_control (control_file w) = JObject d ->
  d !! lit "date" = Some date ->
  date <> PStr today ->
  exists times w1,
    random_times_in rng RANDOM_WINDOWS w = (Ok times, w1) /\
    Forall2 in_window RANDOM_WINDOWS times /\
    same_file w w1 /\
    ensure_today rng today w
      = (Ok tt, after_write (fresh_control today times) w1).
Proof.
  intros Hc Hd Hne.
  destruct (random_times_in_run _ RANDOM_WINDOWS_ordered w)
    as (times & w1 & Hrun & Hin & Hf & _).
  exists times, w1. split; [exact Hrun|]. split; [exact Hin|].
  split; [exact Hf|].
  unfold ensure_today.
  rewrite (bind_ok _ _ _ _ _ (load_control_run w)), Hc.
  unfold getitem. rewrite Hd.
  rewrite (bind_ok _ _ w date w) by reflexivity.
  rewrite (differs_from_true _ _ Hne).
  unfold generate_random_times_for_today.
  rewrite (bind_ok _ _ _ _ _ Hrun). apply save_control_run.
Qed.

Lemma ensure_today_stale_stored today w d date :
  stored_control (control_file w) = JObject d ->
  d !! lit "date" = Some date ->
  date <> PStr today ->
  disk w (writes w) = Written ->
  exists times w1,
    Forall2 in_window RANDOM_WINDOWS times /\
    same_file w w1 /\
    ensure_today rng today w
      = (Ok tt, set_file (Holds (fresh_control today times)) w1).
Proof.
  intros Hc Hd Hne Hw.
  destruct (ensure_today_stale_run today w d date Hc Hd Hne)
    as (times & w1 & _ & Hin & Hf & Hrun).
  exists times, w1. split; [exact Hin|]. split; [exact Hf|].
  rewrite Hrun, after_write_written; [reflexivity|].
  destruct Hf as (_ & Hwr & Hdisk). now rewrite Hdisk, Hwr.
Qed.

Lemma ensure_today_same_day_run today w d :
  stored_control (control_file w) = JObject d ->
  d !! lit "date" = Some (PStr today) ->
  ensure_today rng today w = (Ok tt, w).
Proof.
  intros Hc Hd. unfold ensure_today.
  rewrite (bind_ok _ _ _ _ _ (load_control_run w)), Hc.
  unfold getitem. rewrite Hd.
  rewrite (bind_ok _ _ w (PStr today) w) by reflexivity.
  now rewrite differs_from_same.
Qed.

(** C2, as the code has it.  When the stored record's [date] is anything
    but today's date, one pass of the rollover block returns normally; and
    when its write of the control file takes effect, it leaves the file
    holding exactly [date] = today, [sent] = the empty list and
    [random_times] = one [[h, m]] entry per window of RANDOM_WINDOWS, in
    order, each entry lying, in minutes, between its window's start and end
    (both included). *)
Theorem ensure_today_replaces_stale_state
    (today : list N) (w : world) (d : gmap (list N) pyval) (date : pyval) :
  stored_control (control_file w) = JObject d ->
  d !! lit "date" = Some date ->
  date <> PStr today ->
  disk w (writes w) = Written ->
  exists (times : list (Z * Z)) (w' : world),
    ensure_today rng today w = (Ok tt, w') /\
    control_file w' =
      Holds (JObject
        (<[lit "date" := PStr today]>
         (<[lit "sent" := PList []]>
          (<[lit "random_times" :=
               PList (map (fun hm => EInts [fst hm; snd hm]) times)]> ∅)))) /\
    length times = length RANDOM_WINDOWS /\
    Forall2 in_window RANDOM_WINDOWS times.
Proof.
  intros Hc Hd Hne Hw.
  destruct (ensure_today_stale_stored today w d date Hc Hd Hne Hw)
    as (times & w1 & Hin & _ & Hrun).
  exists times, (set_file (Holds (fresh_control today times)) w1).
  split; [exact Hrun|]. split; [reflexivity|]. split; [|exact Hin].
  symmetry. eapply Forall2_length, Hin.
Qed.

(** C5.  When the stored record's [date] already is today's date, the
    rollover block returns normally and the world after it is the world
    before it: the stored record, with its [random_times], is untouched, the
    file is not written and no random value is drawn. *)
Theorem ensure_today_same_day_unchanged
    (today : list N) (w : world) (d : gmap (list N) pyval) :
  stored_control (control_file w) = JObject d ->
  d !! lit "date" = Some (PStr today) ->
  ensure_today rng today w = (Ok tt, w) /\
  control_file (snd (ensure_today rng today w)) = control_file w /\
  times_of (snd (ensure_today rng today w)) = times_of w /\
  writes (snd (ensure_today rng today w)) = writes w /\
  draws (snd (ensure_today rng today w)) = draws w.
Proof.
  intros Hc Hd. rewrite (ensure_today_same_day_run today w d Hc Hd).
  now repeat split.
Qed.

End Rollover.

(** ** Truncation *)

Lemma rfind_from_spec c s : forall i last,
  let r := rfind_from c s i last in
  (r = last /\ forall j, s !! j <> Some c) \/
  ((i <= r < i + Z.of_nat (length s))%Z /\
   s !! Z.to_nat (r - i) = Some c /\
   forall j, s !! j = Some c -> (i + Z.of_nat j <= r)%Z).
Proof.
  induction s as [|x rest IH]; intros i last; simpl.
  - left. split; [reflexivity | intros j; now rewrite lookup_nil].
  - specialize (IH (i + 1)%Z (if N.eqb x c then i else last)).
    simpl in IH. destruct IH as [[Hr Hnone] | (Hrange & Hat & Hlast)].
    + rewrite Hr. destruct (N.eqb_spec x c) as [->|Hxc].
      * right. split; [lia|]. split.
        -- now replace (i - i)%Z with 0%Z by lia.
        -- intros [|j] Hj; [lia|]. now apply Hnone in Hj.
      * left. split; [reflexivity|].
        intros [|j]; simpl; [congruence | apply Hnone].
    + right. split; [lia|]. split.
      * replace (Z.to_nat (rfind_from c rest (i + 1) (if N.eqb x c then i else last) - i))
          with (S (Z.to_nat (rfind_from c rest (i + 1) (if N.eqb x c then i else last) - (i + 1))))
          by lia.
        exact Hat.
      * intros [|j] Hj; [lia|]. apply Hlast in Hj. lia.
Qed.

(** [rfind] gives the index of the last occurrence, when it is not [-1]. *)
Lemma rfind_found s c :
  (0 <= rfind s c)%Z ->
  (rfind s c < Z.of_nat (length s))%Z /\
  s !! Z.to_nat (rfind s c) = Some c /\
  forall j, s !! j = Some c -> (Z.of_nat j <= rfind s c)%Z.
Proof.
  intros Hpos. unfold rfind in *.
  destruct (rfind_from_spec c s 0 (-1)) as [[Hr _] | (Hrange & Hat & Hlast)].
  - lia.
  - split; [lia|]. split.
    + now rewrite Z.sub_0_r in Hat.
    + intros j Hj. apply Hlast in Hj. lia.
Qed.

Lemma rstrip_prefix s : rstrip s `prefix_of` s.
Proof.
  induction s as [|c rest IH]; simpl; [apply prefix_nil|].
  destruct (rstrip rest) as [|k kept].
  - destruct (is_space c); [apply prefix_nil|].
    apply prefix_cons, prefix_nil.
  - now apply prefix_cons.
Qed.

Lemma rstrip_last s c : last (rstrip s) = Some c -> is_space c = false.
Proof.
  induction s as [|x rest IH]; simpl; [discriminate|].
  destruct (rstrip rest) as [|k kept].
  - destruct (is_space x) eqn:E; simpl; [discriminate|]. now intros [= <-].
  - intros H. apply IH. exact H.
Qed.

(** [rstrip] removes a run of whitespace at the end, and nothing else. *)
Lemma rstrip_split s :
  exists spaces,
    s = rstrip s ++ spaces /\ Forall (fun c => is_space c = true) spaces.
Proof.
  induction s as [|c rest (spaces & Hrest & Hsp)]; simpl.
  - exists []. split; [reflexivity | constructor].
  - destruct (rstrip rest) as [|k kept].
    + simpl in Hrest. subst rest. destruct (is_space c) eqn:E.
      * exists (c :: spaces). split; [reflexivity | now constructor].
      * exists spaces. split; [reflexivity | assumption].
    + exists spaces. split; [|assumption]. simpl. now rewrite Hrest at 1.
Qed.

Lemma MAX_CHARS_nat : Z.to_nat MAX_CHARS = 1024.
Proof. reflexivity. Qed.

Lemma truncate_short m : length m <= 1024 -> truncate m = m.
Proof.
  intros H. unfold truncate.
  destruct (Z.of_nat (length m) >? MAX_CHARS)%Z eqn:E; [|reflexivity].
  apply Z.gtb_lt in E. unfold MAX_CHARS in E. lia.
Qed.

Lemma truncate_long m :
  1024 < length m ->
  truncate m =
    if (2 * rfind (take 1024 m) PERIOD >? MAX_CHARS)%Z
    then take (Z.to_nat (rfind (take 1024 m) PERIOD + 1)) (take 1024 m)
    else rstrip (take 1024 m) ++ [ELLIPSIS].
Proof.
  intros H. unfold truncate. rewrite MAX_CHARS_nat.
  destruct (Z.of_nat (length m) >? MAX_CHARS)%Z eqn:E; [reflexivity|].
  assert (~ (Z.of_nat (length m) > MAX_CHARS)%Z) as Hn.
  { intros Hgt. apply Z.gtb_gt in Hgt. congruence. }
  unfold MAX_CHARS in Hn. lia.
Qed.

(** With both secrets of the push service present, the text that goes into
    the POST is the truncated message. *)
Lemma send_pushover_posts_truncated pushover_api secrets m title w user token :
  secrets !! lit "PUSHOVER_USER_KEY" = Some user ->
  secrets !! lit "PUSHOVER_API_TOKEN" = Some token ->
  outbox (snd (send_pushover pushover_api secrets m title w))
    = outbox w ++ [(truncate m, title)].
Proof.
  intros Huser Htoken.
  unfold send_pushover, try_except, bind, secret, requests_post, ret.
  rewrite Huser, Htoken.
  destruct (pushover_api (calls w) (truncate m) title); reflexivity.
Qed.

(** C3, as the code has it.  A message of at most 1024 characters is left
    as it is.  A longer one whose last period within the first 1024
    characters has an index above 512 is cut just after that period: the
    result is the message up to and including it, so a period at index 600
    gives 601 characters.  Any other longer message is cut hard at 1024
    characters: the whitespace at the end of its first 1024 characters is
    removed, and the ellipsis marker is added to what is kept; the result
    has 1025 characters less the whitespace removed.  The result of this is
    the text handed to the POST. *)
Theorem truncate_cases (m : list N) :
  let last_period := rfind (take 1024 m) PERIOD in
  (length m <= 1024 -> truncate m = m) /\
  (1024 < length m -> (512 < last_period)%Z ->
     truncate m = take (Z.to_nat last_period + 1) m /\
     length (truncate m) = Z.to_nat last_period + 1 /\
     last (truncate m) = Some PERIOD) /\
  (1024 < length m -> (last_period <= 512)%Z ->
     exists kept spaces,
       take 1024 m = kept ++ spaces /\
       Forall (fun c => is_space c = true) spaces /\
       (forall c, last kept = Some c -> is_space c = false) /\
       truncate m = kept ++ [ELLIPSIS] /\
       length (truncate m) + length spaces = 1025) /\
  (forall pushover_api (secrets : gmap (list N) (list N)) title w user token,
     secrets !! lit "PUSHOVER_USER_KEY" = Some user ->
     secrets !! lit "PUSHOVER_API_TOKEN" = Some token ->
     outbox (snd (send_pushover pushover_api secrets m title w))
       = outbox w ++ [(truncate m, title)]).
Proof.
  intros lp. split; [apply truncate_short|]. split; [|split].
  - intros Hlen Hlp. rewrite (truncate_long m Hlen). fold lp.
    destruct (2 * lp >? MAX_CHARS)%Z eqn:E.
    2:{ assert (~ (2 * lp > MAX_CHARS)%Z) as Hn
          by (intros Hgt; apply Z.gtb_gt in Hgt; congruence).
        unfold MAX_CHARS in Hn. lia. }
    destruct (rfind_found (take 1024 m) PERIOD ltac:(fold lp; lia))
      as (Hlt & Hat & _). fold lp in Hlt, Hat.
    rewrite length_take in Hlt.
    replace (Z.to_nat (lp + 1)) with (S (Z.to_nat lp)) by lia.
    replace (Z.to_nat lp + 1) with (S (Z.to_nat lp)) by lia.
    assert (Heq : take (S (Z.to_nat lp)) (take 1024 m) = take (S (Z.to_nat lp)) m).
    { rewrite take_take. f_equal. lia. }
    rewrite Heq. split; [reflexivity|]. split.
    + rewrite length_take. lia.
    + rewrite lookup_take_lt in Hat by lia.
      rewrite (take_S_r _ _ _ Hat). apply last_snoc.
  - intros Hlen Hlp. rewrite (truncate_long m Hlen). fold lp.
    destruct (2 * lp >? MAX_CHARS)%Z eqn:E.
    { apply Z.gtb_gt in E. unfold MAX_CHARS in E. lia. }
    destruct (rstrip_split (take 1024 m)) as (spaces & Hsplit & Hspaces).
    exists (rstrip (take 1024 m)), spaces.
    split; [exact Hsplit|]. split; [exact Hspaces|].
    split; [apply rstrip_last|]. split; [reflexivity|].
    apply (f_equal length) in Hsplit.
    rewrite length_take, length_app in Hsplit.
    rewrite length_app. simpl. lia.
  - intros. now apply (send_pushover_posts_truncated _ _ _ _ _ user token).
Qed.

(** ** What a computation leaves alone *)

Section Keeps.

Variable R : world -> world -> Prop.
Hypothesis R_refl : forall w, R w w.
Hypothesis R_trans : forall w1 w2 w3, R w1 w2 -> R w2 w3 -> R w1 w3.

Lemma keeps_ret {A} (a : A) : keeps R (ret a).
Proof. intros w. apply R_refl. Qed.

Lemma keeps_raise {A} e : keeps R (@raise A e).
Proof. intros w. apply R_refl. Qed.

Lemma keeps_bind {A B} (m : M A) (k : A -> M B) :
  keeps R m -> (forall a, keeps R (k a)) -> keeps R (bind m k).
Proof.
  intros Hm Hk w. unfold bind. specialize (Hm w).
  destruct (m w) as [[a|e] w1]; simpl in *; [|assumption].
  eapply R_trans; [exact Hm | apply Hk].
Qed.

Lemma keeps_try {A} (m : M A) h :
  keeps R m -> (forall e, keeps R (h e)) -> keeps R (try_except m h).
Proof.
  intros Hm Hh w. unfold try_except. specialize (Hm w).
  destruct (m w) as [[a|e] w1]; simpl in *; [assumption|].
  eapply R_trans; [exact Hm | apply Hh].
Qed.

Lemma keeps_for_each {A} (xs : list A) body :
  (forall x, keeps R (body x)) -> keeps R (for_each xs body).
Proof.
  intros Hb. induction xs as [|x xs IH]; simpl.
  - apply keeps_ret.
  - apply keeps_bind; [apply Hb | intros _; exact IH].
Qed.

End Keeps.

Lemma same_store_refl w : same_store w w.
Proof. now repeat split. Qed.

Lemma same_store_trans w1 w2 w3 :
  same_store w1 w2 -> same_store w2 w3 -> same_store w1 w3.
Proof.
  intros [(? & ? & ?) ?] [(? & ? & ?) ?].
  unfold same_store, same_file, same_log in *.
  repeat split; congruence.
Qed.

Section Delivery.

Variable rng : nat -> Z.
Variable anthropic_api : nat -> prompt -> res (list N).
Variable pushover_api : nat -> list N -> list N -> res (Z * list N).
Variable secrets : gmap (list N) (list N).
Variable wall_clock : nat -> list N.

Abbreviation keeps_store := (keeps same_store).
Abbreviation keeps_file := (keeps same_file).

Local Ltac keeps_steps :=
  repeat first
    [ apply (keeps_ret _ same_store_refl)
    | apply (keeps_raise _ same_store_refl)
    | apply (keeps_bind _ same_store_trans); [|intros ?]
    | apply (keeps_try _ same_store_trans); [|intros ?] ].

Lemma random_choice_keeps n : keeps_store (random_choice rng n).
Proof. intros w. unfold random_choice. destruct n; now repeat split. Qed.

Lemma secret_keeps key : keeps_store (secret secrets key).
Proof.
  unfold secret. destruct (secrets !! key); intros w; now repeat split.
Qed.

Lemma messages_create_keeps p : keeps_store (messages_create anthropic_api p).
Proof. intros w. now repeat split. Qed.

Lemma requests_post_keeps m t : keeps_store (requests_post pushover_api m t).
Proof. intros w. now repeat split. Qed.

Lemma now_local_text_keeps : keeps_store (now_local_text wall_clock).
Proof. intros w. now repeat split. Qed.

Local Ltac keeps_env :=
  keeps_steps;
  first [ apply random_choice_keeps | apply secret_keeps
        | apply messages_create_keeps | apply requests_post_keeps
        | apply now_local_text_keeps | idtac ].

Lemma get_prompt_for_fixed_keeps s t : keeps_store (get_prompt_for_fixed rng s t).
Proof.
  unfold get_prompt_for_fixed. destruct s as [s|]; [|keeps_steps].
  case_bool_decide; [|keeps_steps].
  keeps_env. destruct t; keeps_steps.
Qed.

Lemma get_prompt_for_random_keeps : keeps_store (get_prompt_for_random rng).
Proof. unfold get_prompt_for_random. keeps_env. Qed.

Lemma generate_message_keeps p :
  keeps_store (generate_message anthropic_api secrets p).
Proof. unfold generate_message. keeps_env. Qed.

Lemma send_pushover_keeps m t :
  keeps_store (send_pushover pushover_api secrets m t).
Proof. unfold send_pushover. keeps_env. Qed.

(** Generation and delivery, whether they succeed, fail or raise, write
    neither the control file nor the session log. *)
Lemma generate_and_send_keeps stype s t :
  keeps_store
    (generate_and_send rng anthropic_api pushover_api secrets wall_clock stype s t).
Proof.
  unfold generate_and_send.
  apply (keeps_bind _ same_store_trans); [|intros pt].
  { destruct (pystr_eqb stype (lit "fixed")); keeps_steps;
      first [apply get_prompt_for_fixed_keeps | apply get_prompt_for_random_keeps]. }
  apply (keeps_bind _ same_store_trans); [apply generate_message_keeps|intros text].
  apply (keeps_bind _ same_store_trans); [apply send_pushover_keeps|intros r].
  apply (keeps_bind _ same_store_trans); [apply now_local_text_keeps|intros stamp].
  apply (keeps_ret _ same_store_refl).
Qed.

Lemma generate_message_returns p w :
  exists text w', generate_message anthropic_api secrets p w = (Ok text, w').
Proof.
  unfold generate_message, try_except, bind, secret, ret, raise, messages_create.
  destruct (secrets !! lit "ANTHROPIC_API_KEY"); [|eauto].
  destruct (anthropic_api (calls w) p); eauto.
Qed.

Lemma send_pushover_returns m t w :
  exists r w', send_pushover pushover_api secrets m t w = (Ok r, w').
Proof.
  unfold send_pushover, try_except, bind, secret, ret, raise, requests_post.
  destruct (secrets !! lit "PUSHOVER_USER_KEY"); [|eauto].
  destruct (secrets !! lit "PUSHOVER_API_TOKEN"); [|eauto].
  destruct (pushover_api (calls w) (truncate m) t); eauto.
Qed.

Lemma log_result_keeps_file r : keeps_file (log_result r).
Proof. intros w. now split. Qed.

Lemma same_store_file w w' : same_store w w' -> same_file w w'.
Proof. now intros [? _]. Qed.

(** The delivery of a claimed slot always returns: what generation, the
    POST or the log raise is caught.  It does not write the control file. *)
Lemma deliver_run stype s t w :
  exists w',
    deliver rng anthropic_api pushover_api secrets wall_clock stype s t w
      = (Ok tt, w') /\
    same_file w w'.
Proof.
  unfold deliver, try_except, bind.
  pose proof (generate_and_send_keeps stype s t w) as Hk.
  destruct (generate_and_send _ _ _ _ _ stype s t w) as [[r|e] w1]; simpl in Hk.
  - eexists; split; [reflexivity|].
    eapply same_file_trans; [apply same_store_file, Hk|].
    apply (log_result_keeps_file r w1).
  - eexists; split; [reflexivity|]. now apply same_store_file.
Qed.

End Delivery.

(** ** The stored record during a day *)

Lemma grows_refl w : grows w w.
Proof.
  intros d sent Hc Hs. exists []. rewrite app_nil_r, Hc.
  f_equal. symmetry. now apply insert_id.
Qed.

Lemma grows_trans w1 w2 w3 : grows w1 w2 -> grows w2 w3 -> grows w1 w3.
Proof.
  intros H12 H23 d sent Hc Hs.
  destruct (H12 d sent Hc Hs) as (more & Hc2).
  destruct (H23 _ (sent ++ more) Hc2 (lookup_insert_eq _ _ _)) as (more' & Hc3).
  exists (more ++ more'). rewrite Hc3, insert_insert_eq. now rewrite app_assoc.
Qed.

Lemma same_file_grows w w' : same_file w w' -> grows w w'.
Proof.
  intros [Hf _] d sent Hc Hs. exists []. rewrite app_nil_r, Hf, Hc.
  f_equal. symmetry. now apply insert_id.
Qed.

Lemma date_key_ne_sent : lit "date" <> lit "sent".
Proof. discriminate. Qed.

Lemma times_key_ne_sent : lit "random_times" <> lit "sent".
Proof. discriminate. Qed.

Lemma grows_well_formed w w' : well_formed w -> grows w w' -> well_formed w'.
Proof.
  intros (d & date & sent & Hc & Hd & Hs & Ht) Hg.
  destruct (Hg d sent Hc Hs) as (more & Hc').
  exists (<[lit "sent" := PList (sent ++ more)]> d), date, (sent ++ more).
  split; [exact Hc'|]. split; [|split].
  - rewrite lookup_insert_ne; [exact Hd | intros E; now apply date_key_ne_sent].
  - apply lookup_insert_eq.
  - rewrite lookup_insert_ne; [exact Ht | intros E; now apply times_key_ne_sent].
Qed.

Lemma grows_has_key k w w' : has_key k w -> grows w w' -> has_key k w'.
Proof.
  intros (sent & Hs & Hk) Hg.
  destruct (sent_of_inv _ _ Hs) as (d & Hc & Hl).
  destruct (Hg d sent Hc Hl) as (more & Hc').
  exists (sent ++ more). split.
  - unfold sent_of. rewrite Hc'. now rewrite lookup_insert_eq.
  - unfold key_in in *. rewrite existsb_app, Hk. reflexivity.
Qed.

Lemma grows_date_is today w w' :
  (exists sent, sent_of w = Some sent) ->
  date_is today w -> grows w w' -> date_is today w'.
Proof.
  intros (sent & Hs) (d & Hc & Hd) Hg.
  destruct (sent_of_inv _ _ Hs) as (d0 & Hc0 & Hl).
  rewrite Hc in Hc0. injection Hc0 as <-.
  destruct (Hg d sent Hc Hl) as (more & Hc').
  eexists. split; [exact Hc'|].
  rewrite lookup_insert_ne; [exact Hd | intros E; now apply date_key_ne_sent].
Qed.

Lemma grows_sent_of w w' sent :
  sent_of w = Some sent -> grows w w' ->
  exists more, sent_of w' = Some (sent ++ more).
Proof.
  intros Hs Hg. destruct (sent_of_inv _ _ Hs) as (d & Hc & Hl).
  destruct (Hg d sent Hc Hl) as (more & Hc').
  exists more. unfold sent_of. rewrite Hc'. now rewrite lookup_insert_eq.
Qed.

Lemma well_formed_sent_of w : well_formed w -> exists sent, sent_of w = Some sent.
Proof.
  intros (d & date & sent & Hc & _ & Hs & _). exists sent.
  unfold sent_of. now rewrite Hc, Hs.
Qed.

(** What a call of [mark_as_sent] can do: claim a key that is not in the
    stored list, with whatever becomes of the write; or leave the world as
    it is, with an answer of false or an exception. *)
Lemma mark_as_sent_outcome key w :
  (exists d l,
     stored_control (control_file w) = JObject d /\
     d !! lit "sent" = Some (PList l) /\
     key_in l key = false /\
     mark_as_sent key w =
       (Ok true,
        after_write (JObject (<[lit "sent" := PList (l ++ [EStr key])]> d)) w)) \/
  (exists r, mark_as_sent key w = (r, w) /\ r <> Ok true).
Proof.
  destruct (stored_control (control_file w)) as [d|] eqn:Hc.
  2:{ right. exists (Raise TypeError). split; [|discriminate].
      unfold mark_as_sent.
      now rewrite (bind_ok _ _ _ _ _ (load_control_run w)), Hc. }
  destruct (d !! lit "sent") as [v|] eqn:Hs.
  2:{ right. exists (Raise (KeyError (Some (lit "sent")))).
      split; [|discriminate]. unfold mark_as_sent.
      rewrite (bind_ok _ _ _ _ _ (load_control_run w)), Hc.
      unfold getitem. now rewrite Hs. }
  destruct v as [| z | s | l].
  - right. exists (Raise TypeError). split; [|discriminate].
    unfold mark_as_sent.
    rewrite (bind_ok _ _ _ _ _ (load_control_run w)), Hc.
    unfold getitem. now rewrite Hs.
  - right. exists (Raise TypeError). split; [|discriminate].
    unfold mark_as_sent.
    rewrite (bind_ok _ _ _ _ _ (load_control_run w)), Hc.
    unfold getitem. now rewrite Hs.
  - right. exists (if is_substring key s then Ok false else Raise AttributeError).
    split; [|destruct (is_substring key s); discriminate].
    unfold mark_as_sent.
    rewrite (bind_ok _ _ _ _ _ (load_control_run w)), Hc.
    unfold getitem. rewrite Hs. unfold bind, ret, contains, append, raise.
    now destruct (is_substring key s).
  - destruct (key_in l key) eqn:Hk.
    + right. exists (Ok false). split; [|discriminate].
      now apply (mark_as_sent_present key w d l).
    + left. exists d, l. repeat split; try assumption.
      now apply (mark_as_sent_fresh key w d l).
Qed.

(** *** While the writes take effect *)

Lemma steady_refl w : steady w w.
Proof. intros H. split; [exact H | apply grows_refl]. Qed.

Lemma steady_trans w1 w2 w3 : steady w1 w2 -> steady w2 w3 -> steady w1 w3.
Proof.
  intros H12 H23 H1. destruct (H12 H1) as [H2 G12].
  destruct (H23 H2) as [H3 G23]. split; [exact H3|].
  eapply grows_trans; eauto.
Qed.

Lemma same_file_steady w w' : same_file w w' -> steady w w'.
Proof.
  intros Hf Hs. split; [now apply (same_file_sound w) | now apply same_file_grows].
Qed.

(** A claim whose write takes effect leaves the record grown. *)
Lemma mark_as_sent_steady key : keeps steady (mark_as_sent key).
Proof.
  intros w Hd.
  destruct (mark_as_sent_outcome key w)
    as [(d & l & Hc & Hs & Hk & Hrun) | (r & Hrun & _)]; rewrite Hrun; simpl.
  - rewrite after_write_written by apply Hd.
    split; [now apply sound_disk_set_file|].
    intros d' sent' Hc' Hs'. rewrite Hc in Hc'. injection Hc' as <-.
    rewrite Hs in Hs'. injection Hs' as <-. now exists [EStr key].
  - split; [exact Hd | apply grows_refl].
Qed.

Lemma mark_as_sent_has_key key w sent :
  sound_disk w ->
  sent_of w = Some sent ->
  exists b w', mark_as_sent key w = (Ok b, w') /\ has_key key w'.
Proof.
  intros Hd Hs.
  destruct (mark_as_sent_sent_of key w sent Hd Hs) as (w' & Hrun & _ & Hs').
  exists (negb (key_in sent key)), w'. split; [exact Hrun|].
  eexists. split; [exact Hs'|].
  destruct (key_in sent key) eqn:Hk; [exact Hk|].
  rewrite key_in_app, bool_decide_true by reflexivity. apply orb_true_r.
Qed.

(** *** Whatever becomes of the writes *)

Lemma well_formed_of_file w w' :
  control_file w' = control_file w -> well_formed w -> well_formed w'.
Proof. intros Hf Hwf. unfold well_formed in *. now rewrite Hf. Qed.

Lemma well_formed_default w :
  stored_control (control_file w) = DEFAULT_CONTROL -> well_formed w.
Proof.
  intros Hc. eexists _, PNone, []. split; [exact Hc|].
  split; [reflexivity|]. split; [reflexivity|].
  change (Forall time_entry []). constructor.
Qed.

(** A failed write leaves a record the program can go on with: the old
    one, or the default state. *)
Lemma after_write_well_formed data w :
  well_formed w ->
  well_formed (set_file (Holds data) w) ->
  well_formed (after_write data w).
Proof.
  intros Hwf Hnew. unfold after_write.
  destruct (disk w (writes w)).
  - exact Hnew.
  - now apply well_formed_default.
  - now apply (well_formed_of_file w).
  - now apply well_formed_default.
Qed.

Lemma stays_well_formed_refl w : stays_well_formed w w.
Proof. now intros H. Qed.

Lemma stays_well_formed_trans w1 w2 w3 :
  stays_well_formed w1 w2 -> stays_well_formed w2 w3 ->
  stays_well_formed w1 w3.
Proof. unfold stays_well_formed. tauto. Qed.

(** With a list under [sent] a claim returns, whatever becomes of its
    write. *)
Lemma mark_as_sent_returns key w :
  well_formed w ->
  exists b w', mark_as_sent key w = (Ok b, w') /\ well_formed w'.
Proof.
  intros Hwf. pose proof Hwf as (d & date & sent & Hc & Hd & Hs & Ht).
  destruct (key_in sent key) eqn:Hk.
  - exists false, w. split; [|exact Hwf].
    now apply (mark_as_sent_present key w d sent).
  - eexists true, _. split; [now apply (mark_as_sent_fresh key w d sent)|].
    apply after_write_well_formed; [exact Hwf|].
    apply (grows_well_formed w); [exact Hwf|].
    intros d' sent' Hc' Hs'. rewrite Hc in Hc'. injection Hc' as <-.
    rewrite Hs in Hs'. injection Hs' as <-. now exists [EStr key].
Qed.

(** [current_hm == rt] for a stored list of integers. *)
Lemma tuple_eq_ints hm zs :
  tuple_eq hm (map AInt zs) = true <-> zs = [fst hm; snd hm].
Proof.
  destruct zs as [|a [|b [|c rest]]]; simpl; split; try discriminate.
  - intros H. apply andb_true_iff in H as [Ha Hb].
    apply Z.eqb_eq in Ha, Hb. now subst.
  - intros [= -> ->]. now rewrite !Z.eqb_refl.
Qed.

(** ** One pass of the scheduler *)

Section Scheduler.

Variable rng : nat -> Z.
Variable anthropic_api : nat -> prompt -> res (list N).
Variable pushover_api : nat -> list N -> list N -> res (Z * list N).
Variable secrets : gmap (list N) (list N).
Variable wall_clock : nat -> list N.

Abbreviation deliver' := (deliver rng anthropic_api pushover_api secrets wall_clock).
Abbreviation fixed_slot' :=
  (fixed_slot rng anthropic_api pushover_api secrets wall_clock).
Abbreviation random_slot' :=
  (random_slot rng anthropic_api pushover_api secrets wall_clock).
Abbreviation check_slots' :=
  (check_slots rng anthropic_api pushover_api secrets wall_clock).
Abbreviation scheduler_tick' :=
  (scheduler_tick rng anthropic_api pushover_api secrets wall_clock).
Abbreviation scheduler_loop' :=
  (scheduler_loop rng anthropic_api pushover_api secrets wall_clock).

Local Ltac steady_steps :=
  repeat first
    [ apply (keeps_ret _ steady_refl)
    | apply (keeps_raise _ steady_refl)
    | apply (keeps_bind _ steady_trans); [|intros ?] ].

Lemma deliver_steady stype s t : keeps steady (deliver' stype s t).
Proof.
  intros w. destruct (deliver_run rng anthropic_api pushover_api secrets
                        wall_clock stype s t w) as (w' & Hrun & Hf).
  rewrite Hrun. now apply same_file_steady.
Qed.

Lemma fixed_slot_steady hm sch : keeps steady (fixed_slot' hm sch).
Proof.
  unfold fixed_slot. case_bool_decide; [|steady_steps].
  apply (keeps_bind _ steady_trans); [apply mark_as_sent_steady|].
  intros [|]; [apply deliver_steady | steady_steps].
Qed.

Lemma load_control_steady : keeps steady load_control.
Proof. intros w. rewrite load_control_run. apply steady_refl. Qed.

Lemma random_slot_steady hm e : keeps steady (random_slot' hm e).
Proof.
  unfold random_slot.
  apply (keeps_bind _ steady_trans).
  { unfold tuple_of. destruct e; steady_steps. }
  intros rt. apply (keeps_bind _ steady_trans).
  { unfold index. destruct (rt !! 0); steady_steps. }
  intros rt0. apply (keeps_bind _ steady_trans).
  { unfold index. destruct (rt !! 1); steady_steps. }
  intros rt1. destruct (tuple_eq hm rt); [|steady_steps].
  apply (keeps_bind _ steady_trans); [apply mark_as_sent_steady|].
  intros [|]; [apply deliver_steady | steady_steps].
Qed.

(** While the writes take effect, the two loops over the slots only add
    keys to [sent], however they end. *)
Lemma check_slots_steady now : keeps steady (check_slots' now).
Proof.
  unfold check_slots.
  apply (keeps_bind _ steady_trans).
  { apply (keeps_for_each _ steady_refl steady_trans). intros sch.
    apply fixed_slot_steady. }
  intros _. apply (keeps_bind _ steady_trans); [apply load_control_steady|].
  intros control. apply (keeps_bind _ steady_trans).
  { unfold get_or_empty. destruct control as [d|]; [|steady_steps].
    destruct (d !! lit "random_times"); steady_steps. }
  intros times. apply (keeps_bind _ steady_trans).
  { unfold iterate. destruct times; steady_steps. }
  intros entries.
  apply (keeps_for_each _ steady_refl steady_trans). intros e.
  apply random_slot_steady.
Qed.

(** On the day the stored record is dated, a pass only adds keys. *)
Lemma scheduler_tick_same_day_steady now w :
  date_is (today_str now) w -> steady w (snd (scheduler_tick' now w)).
Proof.
  intros (d & Hc & Hd). unfold scheduler_tick.
  rewrite (bind_ok _ _ _ _ _
             (ensure_today_same_day_run rng _ w d Hc Hd)).
  apply check_slots_steady.
Qed.

Lemma scheduler_loop_same_day_steady today nows : forall w,
  Forall (fun now => today_str now = today) nows ->
  (exists sent, sent_of w = Some sent) ->
  date_is today w ->
  steady w (snd (scheduler_loop' nows w)).
Proof.
  induction nows as [|now nows IH]; intros w Hday Hsent Hdate Hd.
  - split; [exact Hd | apply grows_refl].
  - inversion Hday as [|? ? Hnow Hrest]; subst.
    destruct (scheduler_tick_same_day_steady now w Hdate Hd) as [Hd1 Hg].
    unfold scheduler_loop in *. simpl. unfold bind.
    destruct (scheduler_tick' now w) as [[[]|e] w1]; simpl in *;
      [|now split].
    destruct (IH w1 Hrest) as [Hd2 Hg2]; [| |exact Hd1|].
    + destruct Hsent as (sent & Hs).
      destruct (grows_sent_of _ _ _ Hs Hg) as (more & Hs'). eauto.
    + eapply grows_date_is; eauto.
    + split; [exact Hd2 | eapply grows_trans; eauto].
Qed.

(** *** A failed delivery and the claim *)

Lemma mark_as_sent_true_inv k w w1 :
  mark_as_sent k w = (Ok true, w1) ->
  disk w (writes w) = Written ->
  has_key k w1.
Proof.
  intros Hrun Hw.
  destruct (mark_as_sent_outcome k w)
    as [(d & l & Hc & Hs & Hk & Hrun') | (r & Hrun' & Hr)].
  - rewrite Hrun in Hrun'. injection Hrun' as ->.
    rewrite after_write_written by exact Hw.
    eexists. split; [apply sent_of_set_file, lookup_insert_eq|].
    rewrite key_in_app, bool_decide_true by reflexivity. apply orb_true_r.
  - rewrite Hrun in Hrun'. injection Hrun' as <- _. now contradiction Hr.
Qed.

Lemma has_key_refused k w : has_key k w -> mark_as_sent k w = (Ok false, w).
Proof.
  intros (sent & Hs & Hk). destruct (sent_of_inv _ _ Hs) as (d & Hc & Hl).
  now apply (mark_as_sent_present k w d sent).
Qed.

Lemma has_key_sent_of k w : has_key k w -> exists sent, sent_of w = Some sent.
Proof. intros (sent & Hs & _). eauto. Qed.

(** C4, as the code has it.  After [mark_as_sent k] has answered true and
    its write of the control file has taken effect, let generation and
    delivery run with any outcome (an answer, a failure turned into a
    result, or an exception).  The raw attempt leaves the control file as
    it was, so [k] is still in [sent] and a second claim of [k] is refused;
    so does the delivery step of the slot; and after any further passes of
    the scheduler on the day the record is dated, as long as the writes of
    the control file take effect, [k] is still in [sent] and a claim of [k]
    is still refused. *)
Theorem failed_delivery_keeps_claim
    (k : list N) (w w1 : world) (stype : list N) (s t : option (list N)) :
  mark_as_sent k w = (Ok true, w1) ->
  disk w (writes w) = Written ->
  (forall r w2,
     generate_and_send rng anthropic_api pushover_api secrets wall_clock
       stype s t w1 = (r, w2) ->
     control_file w2 = control_file w1 /\
     has_key k w2 /\ mark_as_sent k w2 = (Ok false, w2)) /\
  (exists w2,
     deliver' stype s t w1 = (Ok tt, w2) /\
     control_file w2 = control_file w1 /\
     has_key k w2 /\ mark_as_sent k w2 = (Ok false, w2)) /\
  (forall today nows,
     sound_disk w1 ->
     date_is today w1 ->
     Forall (fun now => today_str now = today) nows ->
     let w3 := snd (scheduler_loop' nows (snd (deliver' stype s t w1))) in
     has_key k w3 /\ mark_as_sent k w3 = (Ok false, w3)).
Proof.
  intros Hclaim Hw. pose proof (mark_as_sent_true_inv _ _ _ Hclaim Hw) as Hkey.
  destruct (deliver_run rng anthropic_api pushover_api secrets wall_clock
              stype s t w1) as (w2 & Hrun & Hf).
  assert (Hkey2 : has_key k w2)
    by (eapply grows_has_key; [exact Hkey | now apply same_file_grows]).
  split; [|split].
  - intros r w2' Hgen.
    pose proof (generate_and_send_keeps rng anthropic_api pushover_api
                  secrets wall_clock stype s t w1) as Hk.
    rewrite Hgen in Hk. simpl in Hk. destruct Hk as [Hfile _].
    assert (has_key k w2')
      by (eapply grows_has_key; [exact Hkey | now apply same_file_grows]).
    split; [apply Hfile|]. split; [assumption | now apply has_key_refused].
  - exists w2. split; [exact Hrun|]. split; [apply Hf|].
    split; [assumption | now apply has_key_refused].
  - intros today nows Hsound Hdate Hday. rewrite Hrun. simpl.
    assert (Hg : grows w2 (snd (scheduler_loop' nows w2))).
    { apply (scheduler_loop_same_day_steady today); [exact Hday | | |].
      - now apply (has_key_sent_of k).
      - apply (grows_date_is today w1 w2);
          [now apply (has_key_sent_of k) | exact Hdate |].
        now apply same_file_grows.
      - now apply (same_file_sound w1). }
    assert (has_key k (snd (scheduler_loop' nows w2)))
      by (eapply grows_has_key; eauto).
    split; [assumption | now apply has_key_refused].
Qed.

End Scheduler.

(** ** Passes that run to their end *)

Lemma grows_times_of w w' :
  (exists sent, sent_of w = Some sent) -> grows w w' -> times_of w' = times_of w.
Proof.
  intros (sent & Hs) Hg. destruct (sent_of_inv _ _ Hs) as (d & Hc & Hl).
  destruct (Hg d sent Hc Hl) as (more & Hc').
  unfold times_of. rewrite Hc, Hc'.
  rewrite lookup_insert_ne; [reflexivity|].
  intros E. now apply times_key_ne_sent.
Qed.

Lemma well_formed_times w :
  well_formed w ->
  exists d,
    stored_control (control_file w) = JObject d /\
    ((d !! lit "random_times" = None /\ times_of w = None) \/
     (exists times, d !! lit "random_times" = Some (PList times) /\
                    times_of w = Some times /\ Forall time_entry times)).
Proof.
  intros (d & date & sent & Hc & _ & _ & Ht). exists d. split; [exact Hc|].
  unfold times_of. rewrite Hc.
  destruct (d !! lit "random_times") as [[| | |times]|]; try contradiction.
  - right. exists times. now repeat split.
  - left. now split.
Qed.

Lemma fresh_control_well_formed today times w :
  well_formed (set_file (Holds (fresh_control today times)) w).
Proof.
  eexists _, (PStr today), []. split; [reflexivity|].
  split; [apply lookup_insert_eq|]. split.
  - rewrite lookup_insert_ne by discriminate. apply lookup_insert_eq.
  - rewrite lookup_insert_ne by discriminate.
    rewrite lookup_insert_ne by discriminate.
    rewrite lookup_insert_eq.
    apply Forall_forall. intros e Hin.
    apply list_elem_of_fmap in Hin as ([h m] & -> & _).
    exists [h; m]. split; [reflexivity | simpl; lia].
Qed.

Section Passes.

Variable rng : nat -> Z.
Variable anthropic_api : nat -> prompt -> res (list N).
Variable pushover_api : nat -> list N -> list N -> res (Z * list N).
Variable secrets : gmap (list N) (list N).
Variable wall_clock : nat -> list N.

Abbreviation deliver' := (deliver rng anthropic_api pushover_api secrets wall_clock).
Abbreviation fixed_slot' :=
  (fixed_slot rng anthropic_api pushover_api secrets wall_clock).
Abbreviation random_slot' :=
  (random_slot rng anthropic_api pushover_api secrets wall_clock).
Abbreviation check_slots' :=
  (check_slots rng anthropic_api pushover_api secrets wall_clock).
Abbreviation scheduler_tick' :=
  (scheduler_tick rng anthropic_api pushover_api secrets wall_clock).
Abbreviation scheduler_loop' :=
  (scheduler_loop rng anthropic_api pushover_api secrets wall_clock).

(** *** Whatever becomes of the writes *)

(** A claim followed by the delivery of the slot when the claim succeeds. *)
Lemma claim_and_deliver_returns key stype s t w :
  well_formed w ->
  exists w',
    bind (mark_as_sent key)
         (fun claimed => if claimed : bool then deliver' stype s t else ret tt) w
      = (Ok tt, w') /\
    well_formed w'.
Proof.
  intros Hwf. destruct (mark_as_sent_returns key w Hwf) as (b & w1 & Hrun & Hwf1).
  rewrite (bind_ok _ _ _ _ _ Hrun). destruct b.
  - destruct (deliver_run rng anthropic_api pushover_api secrets wall_clock
                stype s t w1) as (w2 & Hd & Hf).
    exists w2. split; [exact Hd|].
    apply (well_formed_of_file w1); [apply Hf | exact Hwf1].
  - exists w1. now split.
Qed.

Lemma fixed_slot_returns hm sch w :
  well_formed w ->
  exists w', fixed_slot' hm sch w = (Ok tt, w') /\ well_formed w'.
Proof.
  intros Hwf. unfold fixed_slot. case_bool_decide as Hhm.
  - now apply claim_and_deliver_returns.
  - exists w. now split.
Qed.

Lemma fixed_loop_returns hm schs : forall w,
  well_formed w ->
  exists w', for_each schs (fixed_slot' hm) w = (Ok tt, w') /\ well_formed w'.
Proof.
  induction schs as [|sch schs IH]; intros w Hwf.
  - exists w. now split.
  - destruct (fixed_slot_returns hm sch w Hwf) as (w1 & Hrun & Hwf1).
    destruct (IH w1 Hwf1) as (w2 & Hrest & Hwf2).
    exists w2. split; [|exact Hwf2].
    simpl. now rewrite (bind_ok _ _ _ _ _ Hrun).
Qed.

Lemma random_slot_returns hm e w :
  well_formed w -> time_entry e ->
  exists w', random_slot' hm e w = (Ok tt, w') /\ well_formed w'.
Proof.
  intros Hwf (zs & -> & Hlen).
  destruct zs as [|a [|b rest]]; simpl in Hlen; try lia.
  unfold random_slot.
  rewrite (bind_ok _ _ w (map AInt (a :: b :: rest)) w) by reflexivity.
  rewrite (bind_ok _ _ w (AInt a) w) by reflexivity.
  rewrite (bind_ok _ _ w (AInt b) w) by reflexivity.
  destruct (tuple_eq hm (map AInt (a :: b :: rest))).
  - now apply claim_and_deliver_returns.
  - exists w. now split.
Qed.

Lemma random_loop_returns hm entries : forall w,
  well_formed w -> Forall time_entry entries ->
  exists w',
    for_each entries (random_slot' hm) w = (Ok tt, w') /\ well_formed w'.
Proof.
  induction entries as [|e entries IH]; intros w Hwf Hall.
  - exists w. now split.
  - inversion Hall as [|? ? He Hrest]; subst.
    destruct (random_slot_returns hm e w Hwf He) as (w1 & Hrun & Hwf1).
    destruct (IH w1 Hwf1 Hrest) as (w2 & Hloop & Hwf2).
    exists w2. split; [|exact Hwf2].
    simpl. now rewrite (bind_ok _ _ _ _ _ Hrun).
Qed.

(** With a well-formed record the two loops run to their end, whatever
    generation, delivery and the writes of the control file do. *)
Lemma check_slots_returns now w :
  well_formed w ->
  exists w', check_slots' now w = (Ok tt, w') /\ well_formed w'.
Proof.
  intros Hwf. unfold check_slots.
  destruct (fixed_loop_returns (hour now, minute now) FIXED_SCHEDULES w Hwf)
    as (w1 & Hfixed & Hwf1).
  rewrite (bind_ok _ _ _ _ _ Hfixed).
  rewrite (bind_ok _ _ _ _ _ (load_control_run w1)).
  destruct (well_formed_times _ Hwf1)
    as (d1 & Hc1 & [[Hnone _] | (times & Hsome & _ & Hall)]).
  - rewrite Hc1. unfold get_or_empty. rewrite Hnone.
    exists w1. now split.
  - rewrite Hc1. unfold get_or_empty. rewrite Hsome.
    rewrite (bind_ok _ _ w1 (PList times) w1) by reflexivity.
    rewrite (bind_ok _ _ w1 times w1) by reflexivity.
    now apply random_loop_returns.
Qed.

Lemma ensure_today_returns today w :
  well_formed w ->
  exists w', ensure_today rng today w = (Ok tt, w') /\ well_formed w'.
Proof.
  intros Hwf. pose proof Hwf as (d & date & sent & Hc & Hd & _).
  destruct (decide (date = PStr today)) as [->|Hne].
  - exists w. split; [|exact Hwf].
    now apply (ensure_today_same_day_run rng today w d).
  - destruct (ensure_today_stale_run rng today w d date Hc Hd Hne)
      as (times & w1 & _ & _ & (Hf & _) & Hrun).
    eexists. split; [exact Hrun|].
    apply after_write_well_formed.
    + now apply (well_formed_of_file w).
    + apply fresh_control_well_formed.
Qed.

Lemma scheduler_tick_returns now w :
  well_formed w ->
  exists w', scheduler_tick' now w = (Ok tt, w') /\ well_formed w'.
Proof.
  intros Hwf.
  destruct (ensure_today_returns (today_str now) w Hwf) as (w1 & Hroll & Hwf1).
  destruct (check_slots_returns now w1 Hwf1) as (w2 & Hslots & Hwf2).
  exists w2. split; [|exact Hwf2].
  unfold scheduler_tick. now rewrite (bind_ok _ _ _ _ _ Hroll).
Qed.

Lemma scheduler_loop_returns nows : forall w,
  well_formed w ->
  exists w', scheduler_loop' nows w = (Ok tt, w') /\ well_formed w'.
Proof.
  induction nows as [|now nows IH]; intros w Hwf.
  - exists w. now split.
  - destruct (scheduler_tick_returns now w Hwf) as (w1 & Hrun & Hwf1).
    destruct (IH w1 Hwf1) as (w2 & Hrest & Hwf2).
    exists w2. split; [|exact Hwf2].
    unfold scheduler_loop in *. simpl. now rewrite (bind_ok _ _ _ _ _ Hrun).
Qed.

(** C7, as the code has it.  The delivery step of a claimed slot returns
    whatever generation, the POST or the log do: nothing it raises leaves
    it.  When the stored record is well formed, one pass of the scheduler
    returns normally, with each of the two loops over the slots run to its
    end, and the record stays well formed; so the next pass runs, and any
    run of passes returns normally.  This holds whatever the services
    answer and whatever becomes of the writes of the control file. *)
Theorem delivery_failure_does_not_stop_scheduler
    (now : datetime) (nows : list datetime) (w : world) :
  well_formed w ->
  (forall stype s t w0,
     exists w1, deliver' stype s t w0 = (Ok tt, w1)) /\
  (forall hm,
     exists w1 w2,
       for_each FIXED_SCHEDULES (fixed_slot' hm) w = (Ok tt, w1) /\
       for_each (default [] (times_of w1)) (random_slot' hm) w1 = (Ok tt, w2)) /\
  (exists w',
     scheduler_tick' now w = (Ok tt, w') /\ well_formed w') /\
  (exists w'', scheduler_loop' nows w = (Ok tt, w'') /\ well_formed w'').
Proof.
  intros Hwf. split; [|split; [|split]].
  - intros stype s t w0.
    destruct (deliver_run rng anthropic_api pushover_api secrets wall_clock
                stype s t w0) as (w1 & Hrun & _).
    now exists w1.
  - intros hm.
    destruct (fixed_loop_returns hm FIXED_SCHEDULES w Hwf)
      as (w1 & Hfixed & Hwf1).
    destruct (well_formed_times _ Hwf1)
      as (d1 & Hc1 & [[_ Hno] | (times & _ & Hyes & Hall)]).
    + exists w1, w1. split; [exact Hfixed|]. now rewrite Hno.
    + destruct (random_loop_returns hm times w1 Hwf1 Hall)
        as (w2 & Hrandom & _).
      exists w1, w2. split; [exact Hfixed|]. now rewrite Hyes.
  - now apply scheduler_tick_returns.
  - now apply scheduler_loop_returns.
Qed.

(** *** While the writes take effect *)

Lemma claim_and_deliver_claims key stype s t w :
  well_formed w -> sound_disk w ->
  exists w',
    bind (mark_as_sent key)
         (fun claimed => if claimed : bool then deliver' stype s t else ret tt) w
      = (Ok tt, w') /\
    has_key key w'.
Proof.
  intros Hwf Hd. destruct (well_formed_sent_of _ Hwf) as (sent & Hs).
  destruct (mark_as_sent_has_key key w sent Hd Hs) as (b & w1 & Hrun & Hkey).
  rewrite (bind_ok _ _ _ _ _ Hrun). destruct b.
  - destruct (deliver_run rng anthropic_api pushover_api secrets wall_clock
                stype s t w1) as (w2 & Hdl & Hf).
    exists w2. split; [exact Hdl|].
    eapply grows_has_key; [exact Hkey | now apply same_file_grows].
  - exists w1. now split.
Qed.

Lemma fixed_slot_claims hm sch w :
  well_formed w -> sound_disk w ->
  exists w',
    fixed_slot' hm sch w = (Ok tt, w') /\
    (hm = time sch -> has_key (fixed_key (time sch)) w').
Proof.
  intros Hwf Hd. unfold fixed_slot. case_bool_decide as Hhm.
  - destruct (claim_and_deliver_claims (fixed_key (time sch)) (lit "fixed")
                (Some (sanctuary sch)) (Some (theme sch)) w Hwf Hd)
      as (w' & Hrun & Hkey).
    exists w'. split; [exact Hrun | intros _; exact Hkey].
  - exists w. split; [reflexivity | intros E; contradiction].
Qed.

Lemma fixed_loop_claims hm schs : forall w,
  well_formed w -> sound_disk w ->
  exists w',
    for_each schs (fixed_slot' hm) w = (Ok tt, w') /\
    forall sch, sch ∈ schs -> hm = time sch ->
                has_key (fixed_key (time sch)) w'.
Proof.
  induction schs as [|sch schs IH]; intros w Hwf Hd.
  - exists w. split; [reflexivity|]. intros sch Hin. inversion Hin.
  - destruct (fixed_slot_claims hm sch w Hwf Hd) as (w1 & Hrun & Hkey).
    destruct (fixed_slot_steady rng anthropic_api pushover_api secrets
                wall_clock hm sch w Hd) as [Hd1 Hg1].
    rewrite Hrun in Hd1, Hg1. simpl in Hd1, Hg1.
    destruct (IH w1 (grows_well_formed _ _ Hwf Hg1) Hd1) as (w2 & Hrest & Hkeys).
    exists w2. split.
    + simpl. now rewrite (bind_ok _ _ _ _ _ Hrun).
    + intros sch' Hin Hhm. apply elem_of_cons in Hin as [->|Hin].
      * eapply grows_has_key; [now apply Hkey|].
        destruct (keeps_for_each _ steady_refl steady_trans schs
                    (fixed_slot' hm)
                    (fixed_slot_steady rng anthropic_api pushover_api
                       secrets wall_clock hm) w1 Hd1) as [_ Hg].
        now rewrite Hrest in Hg.
      * now apply Hkeys.
Qed.

Lemma random_slot_claims hm e w :
  well_formed w -> sound_disk w -> time_entry e ->
  exists w',
    random_slot' hm e w = (Ok tt, w') /\
    (e = EInts [fst hm; snd hm] -> has_key (random_key hm) w').
Proof.
  intros Hwf Hd (zs & -> & Hlen).
  destruct zs as [|a [|b rest]]; simpl in Hlen; try lia.
  unfold random_slot.
  rewrite (bind_ok _ _ w (map AInt (a :: b :: rest)) w) by reflexivity.
  rewrite (bind_ok _ _ w (AInt a) w) by reflexivity.
  rewrite (bind_ok _ _ w (AInt b) w) by reflexivity.
  destruct (tuple_eq hm (map AInt (a :: b :: rest))) eqn:Hrt.
  - apply tuple_eq_ints in Hrt. injection Hrt as -> -> ->.
    destruct (claim_and_deliver_claims (random_key hm) (lit "random")
                None None w Hwf Hd) as (w' & Hrun & Hkey).
    exists w'. split; [exact Hrun | intros _; exact Hkey].
  - exists w. split; [reflexivity|]. intros [= -> -> ->].
    assert (Htrue : tuple_eq hm (map AInt [fst hm; snd hm]) = true)
      by now apply tuple_eq_ints.
    congruence.
Qed.

Lemma random_loop_claims hm entries : forall w,
  well_formed w -> sound_disk w -> Forall time_entry entries ->
  exists w',
    for_each entries (random_slot' hm) w = (Ok tt, w') /\
    (EInts [fst hm; snd hm] ∈ entries -> has_key (random_key hm) w').
Proof.
  induction entries as [|e entries IH]; intros w Hwf Hd Hall.
  - exists w. split; [reflexivity|]. intros Hin. inversion Hin.
  - inversion Hall as [|? ? He Hrest]; subst.
    destruct (random_slot_claims hm e w Hwf Hd He) as (w1 & Hrun & Hkey).
    destruct (random_slot_steady rng anthropic_api pushover_api secrets
                wall_clock hm e w Hd) as [Hd1 Hg1].
    rewrite Hrun in Hd1, Hg1. simpl in Hd1, Hg1.
    destruct (IH w1 (grows_well_formed _ _ Hwf Hg1) Hd1 Hrest)
      as (w2 & Hloop & Hkeys).
    exists w2. split.
    + simpl. now rewrite (bind_ok _ _ _ _ _ Hrun).
    + intros Hin. apply elem_of_cons in Hin as [<-|Hin].
      * eapply grows_has_key; [now apply Hkey|].
        destruct (keeps_for_each _ steady_refl steady_trans entries
                    (random_slot' hm)
                    (random_slot_steady rng anthropic_api pushover_api
                       secrets wall_clock hm) w1 Hd1) as [_ Hg].
        now rewrite Hloop in Hg.
      * now apply Hkeys.
Qed.

(** With a well-formed record and writes that take effect, every slot due
    at [now] is claimed by the end of the two loops. *)
Lemma check_slots_claims now w :
  well_formed w -> sound_disk w ->
  exists w',
    check_slots' now w = (Ok tt, w') /\
    sound_disk w' /\
    grows w w' /\
    (forall sch, sch ∈ FIXED_SCHEDULES -> (hour now, minute now) = time sch ->
                 has_key (fixed_key (time sch)) w') /\
    (forall times, times_of w = Some times ->
                   EInts [hour now; minute now] ∈ times ->
                   has_key (random_key (hour now, minute now)) w').
Proof.
  intros Hwf Hd.
  destruct (check_slots_steady rng anthropic_api pushover_api secrets
              wall_clock now w Hd) as [Hsound Hgrows].
  unfold check_slots in *.
  destruct (fixed_loop_claims (hour now, minute now) FIXED_SCHEDULES w Hwf Hd)
    as (w1 & Hfixed & Hkeys).
  destruct (keeps_for_each _ steady_refl steady_trans FIXED_SCHEDULES _
              (fixed_slot_steady rng anthropic_api pushover_api secrets
                 wall_clock (hour now, minute now)) w Hd) as [Hd1 Hg1].
  rewrite Hfixed in Hd1, Hg1. simpl in Hd1, Hg1.
  pose proof (grows_well_formed _ _ Hwf Hg1) as Hwf1.
  pose proof (grows_times_of _ _ (well_formed_sent_of _ Hwf) Hg1) as Ht1.
  rewrite (bind_ok _ _ _ _ _ Hfixed) in *.
  rewrite (bind_ok _ _ _ _ _ (load_control_run w1)) in *.
  destruct (well_formed_times _ Hwf1) as (d1 & Hc1 & Htimes).
  rewrite Hc1 in *. unfold get_or_empty in *.
  assert (Hloop : forall entries,
            Forall time_entry entries ->
            (forall times, times_of w = Some times -> times = entries) ->
            exists w',
              for_each entries (random_slot' (hour now, minute now)) w1
                = (Ok tt, w') /\
              (forall times, times_of w = Some times ->
                 EInts [hour now; minute now] ∈ times ->
                 has_key (random_key (hour now, minute now)) w')).
  { intros entries Hall Hsame.
    destruct (random_loop_claims (hour now, minute now) entries w1 Hwf1 Hd1 Hall)
      as (w2 & Hrun & Hkey).
    exists w2. split; [exact Hrun|].
    intros times Ht Hin. apply Hsame in Ht. subst. now apply Hkey. }
  destruct Htimes as [[Hnone Hno] | (times & Hsome & Hyes & Hall)].
  - rewrite Hnone in *.
    rewrite (bind_ok _ _ w1 (PList []) w1) in * by reflexivity.
    rewrite (bind_ok _ _ w1 [] w1) in * by reflexivity.
    destruct (Hloop [] ltac:(constructor)) as (w2 & Hrun & Hkey).
    { intros times Ht. congruence. }
    exists w2. rewrite Hrun in *. split; [reflexivity|].
    split; [exact Hsound|]. split; [exact Hgrows|].
    split; [|exact Hkey].
    intros sch Hin Hhm. simpl in Hrun. injection Hrun as <-. now apply Hkeys.
  - rewrite Hsome in *.
    rewrite (bind_ok _ _ w1 (PList times) w1) in * by reflexivity.
    rewrite (bind_ok _ _ w1 times w1) in * by reflexivity.
    destruct (Hloop times Hall) as (w2 & Hrun & Hkey).
    { intros times' Ht. congruence. }
    exists w2. rewrite Hrun in *. split; [reflexivity|].
    split; [exact Hsound|]. split; [exact Hgrows|].
    split; [|exact Hkey].
    intros sch Hin Hhm. eapply grows_has_key; [now apply Hkeys|].
    destruct (keeps_for_each _ steady_refl steady_trans times _
                (random_slot_steady rng anthropic_api pushover_api secrets
                   wall_clock (hour now, minute now)) w1 Hd1) as [_ Hg].
    now rewrite Hrun in Hg.
Qed.

Lemma ensure_today_dates today w :
  well_formed w -> sound_disk w ->
  exists w',
    ensure_today rng today w = (Ok tt, w') /\
    well_formed w' /\ sound_disk w' /\ date_is today w'.
Proof.
  intros Hwf Hsound. pose proof Hwf as (d & date & sent & Hc & Hd & _).
  destruct (decide (date = PStr today)) as [->|Hne].
  - exists w. split; [now apply (ensure_today_same_day_run rng today w d)|].
    split; [exact Hwf|]. split; [exact Hsound|]. now exists d.
  - destruct (ensure_today_stale_stored rng today w d date Hc Hd Hne
                (Hsound _)) as (times & w1 & _ & Hf & Hrun).
    exists (set_file (Holds (fresh_control today times)) w1).
    split; [exact Hrun|].
    split; [apply fresh_control_well_formed|].
    split; [apply sound_disk_set_file; now apply (same_file_sound w)|].
    eexists. split; [reflexivity | apply lookup_insert_eq].
Qed.

Lemma scheduler_tick_claims now w :
  well_formed w -> sound_disk w ->
  exists w',
    scheduler_tick' now w = (Ok tt, w') /\
    well_formed w' /\
    sound_disk w' /\
    date_is (today_str now) w' /\
    (forall sch, sch ∈ FIXED_SCHEDULES -> (hour now, minute now) = time sch ->
                 has_key (fixed_key (time sch)) w') /\
    (forall times, times_of w' = Some times ->
                   EInts [hour now; minute now] ∈ times ->
                   has_key (random_key (hour now, minute now)) w').
Proof.
  intros Hwf Hd.
  destruct (ensure_today_dates (today_str now) w Hwf Hd)
    as (w1 & Hroll & Hwf1 & Hd1 & Hdate1).
  destruct (check_slots_claims now w1 Hwf1 Hd1)
    as (w2 & Hslots & Hd2 & Hg & Hfixed & Hrandom).
  exists w2. split.
  { unfold scheduler_tick. now rewrite (bind_ok _ _ _ _ _ Hroll). }
  split; [now apply (grows_well_formed w1)|].
  split; [exact Hd2|].
  split; [now apply (grows_date_is _ w1 w2 (well_formed_sent_of _ Hwf1))|].
  split; [exact Hfixed|].
  intros times Ht. apply Hrandom.
  now rewrite <- (grows_times_of w1 w2 (well_formed_sent_of _ Hwf1) Hg).
Qed.

End Passes.

(** ** The session log *)

Lemma last_n_length {A} n (l : list A) : length (last_n n l) <= n.
Proof. unfold last_n. rewrite length_drop. lia. Qed.

(** The list the scheduler's way of logging stores, [log_entry[-20:]], has
    at most [LOG_BOUND] entries. *)
Lemma scheduler_cut_bounded (l : list delivery_result) r :
  length (last_n LOG_BOUND (l ++ [r])) <= LOG_BOUND.
Proof. apply last_n_length. Qed.

Section Page.

Variable rng : nat -> Z.
Variable anthropic_api : nat -> prompt -> res (list N).
Variable pushover_api : nat -> list N -> list N -> res (Z * list N).
Variable secrets : gmap (list N) (list N).
Variable wall_clock : nat -> list N.

Abbreviation generate_and_send' :=
  (generate_and_send rng anthropic_api pushover_api secrets wall_clock).
Abbreviation main_send' :=
  (main_send rng anthropic_api pushover_api secrets wall_clock).
Abbreviation main' :=
  (main rng anthropic_api pushover_api secrets wall_clock).
Abbreviation main_runs' :=
  (main_runs rng anthropic_api pushover_api secrets wall_clock).

Lemma generate_and_send_rest p title stype s w :
  exists r w',
    bind (generate_message anthropic_api secrets p)
      (fun message =>
         bind (send_pushover pushover_api secrets message title)
           (fun result =>
              bind (now_local_text wall_clock)
                (fun stamp =>
                   ret {| timestamp := stamp; type := stype;
                          result_sanctuary := sanctuary_or_todos s;
                          message := message; pushover := result |}))) w
      = (Ok r, w').
Proof.
  destruct (generate_message_returns anthropic_api secrets p w)
    as (text & w1 & H1).
  destruct (send_pushover_returns pushover_api secrets text title w1)
    as (result & w2 & H2).
  rewrite (bind_ok _ _ _ _ _ H1), (bind_ok _ _ _ _ _ H2).
  eexists _, _. reflexivity.
Qed.

(** For a sanctuary of the fixed table, or for the integration message,
    generation and delivery return a result: the failures of the services
    are inside it. *)
Lemma generate_and_send_fixed_returns s t w :
  s = CABECA \/ s = PELVIS \/ s = CORACAO ->
  exists r w', generate_and_send' (lit "fixed") (Some s) (Some t) w = (Ok r, w').
Proof.
  intros Hs. unfold generate_and_send.
  replace (pystr_eqb (lit "fixed") (lit "fixed")) with true by reflexivity.
  unfold get_prompt_for_fixed. rewrite bool_decide_true by exact Hs.
  rewrite (bind_ok _ _ w (FixedPrompt s t (Z.to_nat (rng (draws w) mod 14)),
                          title_map_get (Some s)) (tick_draws w))
    by reflexivity.
  apply generate_and_send_rest.
Qed.

Lemma generate_and_send_random_returns w :
  exists r w', generate_and_send' (lit "random") None None w = (Ok r, w').
Proof.
  unfold generate_and_send.
  replace (pystr_eqb (lit "random") (lit "fixed")) with false by reflexivity.
  unfold get_prompt_for_random.
  rewrite (bind_ok _ _ w
             (RandomPrompt (Z.to_nat (rng (draws w) mod 10))
                           (Z.to_nat (rng (S (draws w)) mod 9)),
              TITLE_INTEGRACAO) (tick_draws (tick_draws w)))
    by reflexivity.
  apply generate_and_send_rest.
Qed.

(** The manual send adds its result at the end of the log and cuts
    nothing. *)
Lemma main_send_appends msg_type w l :
  session_log w = Some l ->
  exists r w',
    main_send' msg_type w = (Ok r, w') /\
    session_log w' = Some (l ++ [r]).
Proof.
  intros Hlog. unfold main_send.
  assert (Hgen : exists r w1,
    (if is_substring (lit "Cabe" ++ [231%N] ++ lit "a") msg_type
     then generate_and_send' (lit "fixed") (Some CABECA) (Some INTENCAO)
     else if is_substring (lit "P" ++ [233%N] ++ lit "lvis") msg_type
     then generate_and_send' (lit "fixed") (Some PELVIS) (Some RENOVACAO)
     else if is_substring (lit "Cora" ++ [231%N; 227%N] ++ lit "o") msg_type
     then generate_and_send' (lit "fixed") (Some CORACAO) (Some REFLEXAO)
     else generate_and_send' (lit "random") None None) w = (Ok r, w1) /\
    session_log w1 = session_log w).
  { assert (Hk : forall stype s t r w1,
              generate_and_send' stype s t w = (r, w1) ->
              session_log w1 = session_log w).
    { intros stype s t r w1 Hrun.
      pose proof (generate_and_send_keeps rng anthropic_api pushover_api
                    secrets wall_clock stype s t w) as Hk.
      rewrite Hrun in Hk. apply Hk. }
    destruct (is_substring _ msg_type);
      [|destruct (is_substring _ msg_type);
        [|destruct (is_substring _ msg_type)]].
    - destruct (generate_and_send_fixed_returns CABECA INTENCAO w)
        as (r & w1 & H); [tauto|]. exists r, w1. split; [exact H|]. eauto.
    - destruct (generate_and_send_fixed_returns PELVIS RENOVACAO w)
        as (r & w1 & H); [tauto|]. exists r, w1. split; [exact H|]. eauto.
    - destruct (generate_and_send_fixed_returns CORACAO REFLEXAO w)
        as (r & w1 & H); [tauto|]. exists r, w1. split; [exact H|]. eauto.
    - destruct (generate_and_send_random_returns w) as (r & w1 & H).
      exists r, w1. split; [exact H|]. eauto. }
  destruct Hgen as (r & w1 & Hrun & Hlog1).
  rewrite (bind_ok _ _ _ _ _ Hrun).
  exists r, (set_log (l ++ [r]) w1). split; [|reflexivity].
  unfold bind, log_append. rewrite Hlog1, Hlog. reflexivity.
Qed.

(** A run of the page with the button pressed, all secrets present: it
    returns, and the log is the log it found (empty when there was none)
    with the result added at the end. *)
Lemma main_pressed_appends msg_type w :
  missing_secrets secrets = [] ->
  exists r w',
    main' (Some msg_type) w = (Ok tt, w') /\
    session_log w' = Some (default [] (session_log w) ++ [r]).
Proof.
  intros Hconf. unfold main. rewrite Hconf.
  assert (Hinit : exists w0, init_log w = (Ok tt, w0) /\
                    session_log w0 = Some (default [] (session_log w))).
  { unfold init_log. destruct (session_log w) eqn:E; eexists; split;
      try reflexivity; simpl; now rewrite ?E. }
  destruct Hinit as (w0 & Hinit & Hlog0).
  rewrite (bind_ok _ _ _ _ _ Hinit).
  destruct (main_send_appends msg_type w0 _ Hlog0) as (r & w1 & Hrun & Hlog1).
  exists r, w1. split; [|exact Hlog1].
  now rewrite (bind_ok _ _ _ _ _ Hrun).
Qed.

(** Every run with the button pressed makes the session log one entry
    longer, with no cut at LOG_BOUND, whatever the services answer. *)
Lemma main_runs_lengthen_log (types : list (list N)) :
  missing_secrets secrets = [] ->
  forall w, exists w',
    main_runs' (map Some types) w = (Ok tt, w') /\
    length (default [] (session_log w'))
      = length (default [] (session_log w)) + length types.
Proof.
  intros Hconf. induction types as [|msg_type types IH]; intros w.
  - exists w. split; [reflexivity | simpl; lia].
  - destruct (main_pressed_appends msg_type w Hconf) as (r & w1 & Hrun & Hlog).
    destruct (IH w1) as (w2 & Hrest & Hlen).
    exists w2. split.
    + unfold main_runs in *. simpl. now rewrite (bind_ok _ _ _ _ _ Hrun).
    + rewrite Hlen, Hlog. simpl. rewrite length_app. simpl. lia.
Qed.

End Page.

(** ** The keys of a day *)

Lemma fixed_key_ne_random_key ft rt : fixed_key ft <> random_key rt.
Proof. unfold fixed_key, random_key. discriminate. Qed.

Lemma window_hours (h m lo hi : Z) :
  (lo * 60 <= h * 60 + m <= hi * 60 + 59)%Z -> (0 <= m < 60)%Z ->
  (lo <= h <= hi)%Z.
Proof. lia. Qed.

Lemma random_keys_differ h1 m1 h2 m2 :
  (9 <= h1 <= 10)%Z -> (14 <= h2 <= 18)%Z ->
  random_key (h1, m1) <> random_key (h2, m2).
Proof.
  intros H1 H2.
  assert (E1 : h1 = 9%Z \/ h1 = 10%Z) by lia.
  assert (E2 : h2 = 14%Z \/ h2 = 15%Z \/ h2 = 16%Z \/ h2 = 17%Z \/ h2 = 18%Z)
    by lia.
  unfold random_key.
  destruct E1 as [-> | ->];
    destruct E2 as [-> | [-> | [-> | [-> | ->]]]];
    discriminate.
Qed.

(** C10.  Whatever the random generator gives, the day's random times are
    two, and the five slot keys (those of 08:00, 12:00 and 20:00 and those
    of the two random times) are pairwise distinct; so are the five clock
    times, the first random time lying in 09:00-10:59 and the second in
    14:00-18:59. *)
Theorem slot_keys_pairwise_distinct (rng : nat -> Z) (w : world) :
  exists times w',
    generate_random_times_for_today rng w = (Ok times, w') /\
    Forall2 in_window RANDOM_WINDOWS times /\
    length (slot_keys times) = 5 /\
    NoDup (slot_keys times) /\
    NoDup (slot_times times).
Proof.
  destruct (random_times_in_run rng _ RANDOM_WINDOWS_ordered w)
    as (times & w' & Hrun & Hin & _).
  exists times, w'. split; [exact Hrun|]. split; [exact Hin|].
  unfold RANDOM_WINDOWS in Hin.
  inversion Hin as [|? [h1 m1] ? ? Hw1 Hrest1]; subst.
  inversion Hrest1 as [|? [h2 m2] ? ? Hw2 Hrest2]; subst.
  inversion Hrest2; subst. simpl in Hw1, Hw2.
  destruct Hw1 as [Hr1 Hm1], Hw2 as [Hr2 Hm2].
  assert (Hh1 : (9 <= h1 <= 10)%Z) by (apply (window_hours h1 m1); lia).
  assert (Hh2 : (14 <= h2 <= 18)%Z) by (apply (window_hours h2 m2); lia).
  split; [reflexivity|]. split.
  - unfold slot_keys. simpl.
    repeat (apply NoDup_cons; split;
            [rewrite ?not_elem_of_cons; repeat split;
             try apply not_elem_of_nil;
             try apply fixed_key_ne_random_key;
             try (now apply random_keys_differ);
             try discriminate
            |]).
    apply NoDup_nil_2.
  - unfold slot_times. simpl.
    repeat (apply NoDup_cons; split;
            [rewrite ?not_elem_of_cons; repeat split;
             try apply not_elem_of_nil;
             try (intros [= ? ?]; lia); try discriminate
            |]).
    apply NoDup_nil_2.
Qed.

(** * The properties on sample runs *)

(** A store that starts empty.  The pass of 07:00 writes the day's record;
    the pass of 08:00 claims the first fixed slot and makes one POST; a
    second pass in the same minute claims and posts nothing; the pass of
    08:00 the next day, after the rollover, claims the same key again. *)
Example two_days_of_passes :
  let run nows :=
    snd (scheduler_loop rng_zero anthropic_up pushover_up all_secrets
           clock_text nows empty_world) in
  control_file (run [at_0700])
    = Holds (fresh_control DAY_ONE [(9, 0)%Z; (14, 0)%Z]) /\
  sent_of (run [at_0700; at_0800]) = Some [EStr KEY_0800] /\
  length (outbox (run [at_0700; at_0800])) = 1 /\
  sent_of (run [at_0700; at_0800; at_0800]) = Some [EStr KEY_0800] /\
  length (outbox (run [at_0700; at_0800; at_0800])) = 1 /\
  sent_of (run [at_0700; at_0800; at_0800; next_day_0800])
    = Some [EStr KEY_0800] /\
  date_is DAY_TWO (run [at_0700; at_0800; at_0800; next_day_0800]) /\
  length (outbox (run [at_0700; at_0800; at_0800; next_day_0800])) = 2.
Proof.
  repeat split; try (vm_compute; reflexivity).
  eexists. split; vm_compute; reflexivity.
Qed.

Lemma mark_as_sent_true_exactly_once_witness :
  sent_of empty_world = Some [] /\
  exists answers w',
    claim_all [KEY_0800; KEY_0800; KEY_0800] empty_world = (Ok answers, w') /\
    answers_for KEY_0800 [KEY_0800; KEY_0800; KEY_0800] answers
      = [true; false; false].
Proof.
  split; [reflexivity|].
  destruct (mark_as_sent_true_exactly_once
              [KEY_0800; KEY_0800; KEY_0800] KEY_0800 empty_world [])
    as (answers & w' & sent' & Hrun & _ & Hans & _).
  - intros n. reflexivity.
  - reflexivity.
  - exists answers, w'. split; [exact Hrun | exact Hans].
Defined.

(** C1 does not hold as worded.  The control file holds the record of the
    day and is read-only.  The first claim of the key of 08:00 answers true;
    its write fails and [save_control] swallows the failure; so the key is
    not stored and the second claim answers true as well. *)
Lemma claim_true_twice_when_write_fails :
  sent_of (read_only_world record_of_day_one) = Some [] /\
  exists w',
    claim_all [KEY_0800; KEY_0800] (read_only_world record_of_day_one)
      = (Ok [true; true], w') /\
    answers_for KEY_0800 [KEY_0800; KEY_0800] [true; true] = [true; true] /\
    sent_of w' = Some [].
Proof.
  split; [vm_compute; reflexivity|].
  eexists. split; [vm_compute; reflexivity|].
  split; vm_compute; reflexivity.
Qed.

Lemma ensure_today_replaces_stale_state_witness :
  sent_of (world_holding record_with_claim) = Some [EStr KEY_0800] /\
  exists times w',
    ensure_today rng_zero DAY_TWO (world_holding record_with_claim)
      = (Ok tt, w') /\
    control_file w' = Holds (fresh_control DAY_TWO times) /\
    sent_of w' = Some [] /\
    Forall2 in_window RANDOM_WINDOWS times.
Proof.
  split; [vm_compute; reflexivity|].
  destruct (ensure_today_replaces_stale_state rng_zero DAY_TWO
              (world_holding record_with_claim)
              (<[lit "date" := PStr DAY_ONE]>
               (<[lit "sent" := PList [EStr KEY_0800]]>
                (<[lit "random_times" :=
                     PList [EInts [9; 30]%Z; EInts [15; 0]%Z]]> ∅)))
              (PStr DAY_ONE))
    as (times & w' & Hrun & Hfile & _ & Hin).
  - reflexivity.
  - vm_compute. reflexivity.
  - vm_compute. discriminate.
  - reflexivity.
  - exists times, w'. split; [exact Hrun|]. split; [exact Hfile|].
    split; [|exact Hin]. unfold sent_of. now rewrite Hfile.
Defined.

(** C2 does not hold as worded.  The control file holds the record of day
    one, with a claimed key, and is read-only.  On day two the rollover
    block returns, but its write fails and is swallowed: the stored state is
    not replaced, the date is still that of day one and the key is still in
    [sent]. *)
Lemma rollover_not_stored_when_write_fails :
  exists w',
    ensure_today rng_zero DAY_TWO (read_only_world record_with_claim)
      = (Ok tt, w') /\
    control_file w' = Holds record_with_claim /\
    date_is DAY_ONE w' /\
    sent_of w' = Some [EStr KEY_0800].
Proof.
  eexists. split; [vm_compute; reflexivity|].
  split; [vm_compute; reflexivity|].
  split; [|vm_compute; reflexivity].
  eexists. split; vm_compute; reflexivity.
Qed.

Lemma ensure_today_same_day_unchanged_witness :
  ensure_today rng_zero DAY_ONE (world_holding record_of_day_one)
    = (Ok tt, world_holding record_of_day_one).
Proof.
  eapply proj1.
  apply (ensure_today_same_day_unchanged rng_zero DAY_ONE
           (world_holding record_of_day_one)
           (<[lit "date" := PStr DAY_ONE]>
            (<[lit "sent" := PList []]>
             (<[lit "random_times" :=
                  PList (map (fun hm => EInts [fst hm; snd hm])
                           [(9, 30)%Z; (15, 0)%Z])]> ∅)))).
  - reflexivity.
  - reflexivity.
Defined.

Lemma mark_as_sent_refusal_writes_nothing_witness :
  snd (mark_as_sent KEY_0800 (snd (mark_as_sent KEY_0800 empty_world)))
    = snd (mark_as_sent KEY_0800 empty_world).
Proof.
  apply (mark_as_sent_refusal_writes_nothing KEY_0800
           (snd (mark_as_sent KEY_0800 empty_world))).
  vm_compute. reflexivity.
Defined.

(** With both services down, generation puts its error text in the message
    and the POST fails: the result carries the failure. *)
Lemma generate_and_send_services_down :
  exists r w',
    generate_and_send rng_zero anthropic_down pushover_down all_secrets
      clock_text (lit "fixed") (Some CABECA) (Some INTENCAO)
      (snd (mark_as_sent KEY_0800 empty_world)) = (Ok r, w') /\
    message r = lit "[Erro ao gerar mensagem: overloaded]" /\
    pushover r = Failed (lit "timed out") /\
    success (pushover r) = false.
Proof. eexists _, _. repeat split; vm_compute; reflexivity. Qed.

Lemma failed_delivery_keeps_claim_witness :
  exists w2,
    deliver rng_zero anthropic_down pushover_down all_secrets clock_text
      (lit "fixed") (Some CABECA) (Some INTENCAO)
      (snd (mark_as_sent KEY_0800 empty_world)) = (Ok tt, w2) /\
    mark_as_sent KEY_0800 w2 = (Ok false, w2).
Proof.
  destruct (failed_delivery_keeps_claim rng_zero anthropic_down pushover_down
              all_secrets clock_text KEY_0800 empty_world
              (snd (mark_as_sent KEY_0800 empty_world))
              (lit "fixed") (Some CABECA) (Some INTENCAO))
    as (_ & (w2 & Hrun & _ & _ & Hagain) & _).
  - vm_compute. reflexivity.
  - reflexivity.
  - exists w2. split; [exact Hrun | exact Hagain].
Defined.

(** C4 does not hold as worded.  The control file is read-only.  The claim
    of the key of 08:00 answers true, its write fails and is swallowed;
    generation and delivery fail, both services being down; the key is not
    in [sent], and the second claim of the day answers true, not false. *)
Lemma failed_write_claim_not_kept :
  exists w1 w2,
    mark_as_sent KEY_0800 (read_only_world record_of_day_one) = (Ok true, w1) /\
    deliver rng_zero anthropic_down pushover_down all_secrets clock_text
      (lit "fixed") (Some CABECA) (Some INTENCAO) w1 = (Ok tt, w2) /\
    sent_of w2 = Some [] /\
    fst (mark_as_sent KEY_0800 w2) = Ok true.
Proof.
  eexists _, _. split; [vm_compute; reflexivity|].
  split; [vm_compute; reflexivity|].
  split; vm_compute; reflexivity.
Qed.

(** With the control file read-only, the claims are not stored, and two
    passes at 08:00 of the day of the record each claim the slot and each
    make a POST. *)
Lemma read_only_file_sends_twice :
  exists w',
    scheduler_loop rng_zero anthropic_up pushover_up all_secrets clock_text
      [at_0800; at_0800] (read_only_world record_of_day_one) = (Ok tt, w') /\
    length (outbox w') = 2 /\
    sent_of w' = Some [].
Proof.
  eexists. split; [vm_compute; reflexivity|].
  split; vm_compute; reflexivity.
Qed.

Lemma truncate_cases_witness :
  truncate message_with_period = take 601 message_with_period /\
  last (truncate message_with_period) = Some PERIOD.
Proof.
  destruct (truncate_cases message_with_period) as (_ & Hcut & _).
  destruct Hcut as (Heq & _ & Hlast).
  - apply Nat.ltb_lt. vm_compute. reflexivity.
  - vm_compute. reflexivity.
  - split; [exact Heq | exact Hlast].
Defined.

(** C3 does not hold as worded: a message whose first 1024 characters end
    in two spaces is hard-cut to 1023 characters, the ellipsis marker
    included, not to 1024. *)
Lemma truncate_hard_cut_not_1024 :
  1024 < length message_with_spaces /\
  rfind (take 1024 message_with_spaces) PERIOD = (-1)%Z /\
  truncate message_with_spaces = repeat 97%N 1022 ++ [ELLIPSIS] /\
  length (truncate message_with_spaces) = 1023 /\
  length (truncate message_with_spaces) <> 1024.
Proof.
  split; [apply Nat.ltb_lt; vm_compute; reflexivity|].
  split; [vm_compute; reflexivity|].
  split; [vm_compute; reflexivity|].
  split; [vm_compute; reflexivity|].
  vm_compute. discriminate.
Qed.

(** Without whitespace at the cut, the hard cut keeps all 1024 characters
    and adds the marker: 1025 characters go to the POST. *)
Lemma truncate_hard_cut_of_1025 :
  truncate message_of_1025 = repeat 97%N 1024 ++ [ELLIPSIS] /\
  length (truncate message_of_1025) = 1025.
Proof. split; vm_compute; reflexivity. Qed.

Lemma delivery_failure_does_not_stop_scheduler_witness :
  exists w',
    scheduler_loop rng_zero anthropic_down pushover_down no_secrets clock_text
      [at_0800; at_1200] empty_world = (Ok tt, w') /\
    well_formed w'.
Proof.
  destruct (delivery_failure_does_not_stop_scheduler rng_zero anthropic_down
              pushover_down no_secrets clock_text at_0800 [at_0800; at_1200]
              empty_world) as (_ & _ & _ & Hloop).
  - exists (<[lit "date" := PNone]>
            (<[lit "sent" := PList []]>
             (<[lit "random_times" := PList []]> ∅))), PNone, [].
    split; [reflexivity|]. split; [reflexivity|]. split; [reflexivity|].
    vm_compute. constructor.
  - exact Hloop.
Defined.

(** C7 does not hold as worded.  The stored record is an object dated
    today without a [sent] member.  At 08:00 the claim of the first fixed
    slot raises KeyError; nothing catches it, so the pass ends there,
    before the other slots, and the run of passes ends with it, before the
    pass of 12:00. *)
Lemma claim_error_stops_scheduler :
  mark_as_sent KEY_0800 (world_holding record_without_sent)
    = (Raise (KeyError (Some (lit "sent"))), world_holding record_without_sent) /\
  scheduler_tick rng_zero anthropic_down pushover_down no_secrets clock_text
    at_0800 (world_holding record_without_sent)
    = (Raise (KeyError (Some (lit "sent"))), world_holding record_without_sent) /\
  scheduler_loop rng_zero anthropic_down pushover_down no_secrets clock_text
    [at_0800; at_1200] (world_holding record_without_sent)
    = (Raise (KeyError (Some (lit "sent"))), world_holding record_without_sent).
Proof. repeat split; vm_compute; reflexivity. Qed.

(** C8, on the code.  Twenty-one runs of the page in one session, each
    with the button pressed, all secrets present and both services
    answering, leave twenty-one entries in the log, one more than LOG_BOUND:
    the manual path appends and never cuts, where the scheduler's path
    keeps the last LOG_BOUND entries. *)
Theorem manual_sends_exceed_bound :
  exists w' l',
    main_runs rng_zero anthropic_up pushover_up all_secrets clock_text
      (repeat (Some RADIO_INTEGRACAO) 21) empty_world = (Ok tt, w') /\
    session_log w' = Some l' /\
    length l' = 21 /\ LOG_BOUND < length l'.
Proof.
  destruct (main_runs_lengthen_log rng_zero anthropic_up pushover_up
              all_secrets clock_text (repeat RADIO_INTEGRACAO 21)
              ltac:(reflexivity) empty_world) as (w' & Hrun & Hlen).
  destruct (session_log w') as [l'|] eqn:Hlog; [|discriminate Hlen].
  exists w', l'. split; [exact Hrun|]. split; [exact Hlog|].
  simpl in Hlen. rewrite Hlen. unfold LOG_BOUND. split; [reflexivity | lia].
Qed.

(** * Further properties of the code *)

(** ** Truncation, again *)

Lemma take_1024_length (m : list N) :
  1024 < length m -> length (take 1024 m) = 1024.
Proof. intros H. rewrite length_take. lia. Qed.

Lemma truncate_hard_cut_full m :
  1024 < length m ->
  length (rstrip (take 1024 m)) = 1024 ->
  rstrip (take 1024 m) = take 1024 m.
Proof.
  intros Hlen Hfull. apply prefix_length_eq; [apply rstrip_prefix|].
  rewrite Hfull, take_1024_length by assumption. lia.
Qed.

(** X1.  Truncating a truncated message changes nothing: what went into
    one POST goes unchanged into the next. *)
Theorem truncate_idempotent (m : list N) : truncate (truncate m) = truncate m.
Proof.
  destruct (le_lt_dec (length m) 1024) as [Hshort | Hlong].
  - now rewrite (truncate_short m Hshort), (truncate_short m Hshort).
  - rewrite (truncate_long m Hlong).
    set (t := take 1024 m). set (lp := rfind t PERIOD).
    destruct (2 * lp >? MAX_CHARS)%Z eqn:E.
    + apply truncate_short. rewrite length_take. unfold t.
      rewrite take_1024_length by assumption. lia.
    + destruct (le_lt_dec (length (rstrip t ++ [ELLIPSIS])) 1024) as [Hs | Hl].
      * now apply truncate_short.
      * rewrite length_app in Hl. simpl in Hl.
        pose proof (prefix_length _ _ (rstrip_prefix t)) as Hp.
        unfold t in Hp at 2. rewrite take_1024_length in Hp by assumption.
        assert (Hfull : rstrip t = t)
          by (apply truncate_hard_cut_full; [assumption | fold t; lia]).
        rewrite Hfull.
        assert (Hlong' : 1024 < length (t ++ [ELLIPSIS])).
        { rewrite (length_app t). unfold t.
          rewrite take_1024_length by assumption. simpl. lia. }
        rewrite (truncate_long _ Hlong').
        assert (Ht : take 1024 (t ++ [ELLIPSIS]) = t).
        { apply take_app_length'. unfold t.
          now rewrite take_1024_length. }
        rewrite Ht. fold lp. rewrite E. now rewrite Hfull.
Qed.

(** X2.  Truncation never makes a message longer, and what it returns has
    at most 1025 characters: 1024 of the message and the marker. *)
Theorem truncate_length_bound (m : list N) :
  length (truncate m) <= length m /\ length (truncate m) <= 1025.
Proof.
  destruct (le_lt_dec (length m) 1024) as [Hshort | Hlong].
  - rewrite (truncate_short m Hshort). lia.
  - rewrite (truncate_long m Hlong).
    destruct (2 * rfind (take 1024 m) PERIOD >? MAX_CHARS)%Z.
    + rewrite length_take, take_1024_length by assumption. lia.
    + rewrite length_app. simpl.
      pose proof (prefix_length _ _ (rstrip_prefix (take 1024 m))) as Hp.
      rewrite take_1024_length in Hp by assumption. lia.
Qed.

(** ** The keys *)

Lemma uint_chars_inj d : forall d', uint_chars d = uint_chars d' -> d = d'.
Proof.
  induction d; destruct d'; simpl; intros H; try discriminate;
    try reflexivity; injection H as H; f_equal; now apply IHd.
Qed.

Lemma uint_chars_digits d : Forall (fun c => (48 <= c <= 57)%N) (uint_chars d).
Proof. induction d; simpl; constructor; (lia || assumption). Qed.

Lemma str_int_no_underscore n : 95%N ∉ str_int n.
Proof.
  unfold str_int. intros Hin.
  assert (Hno : forall d, 95%N ∉ uint_chars d).
  { intros d Hd. pose proof (uint_chars_digits d) as Hall.
    rewrite Forall_forall in Hall. apply Hall in Hd. lia. }
  destruct (Z.to_int n) as [d | d].
  - now apply (Hno d).
  - apply elem_of_cons in Hin as [Heq | Hin]; [discriminate | now apply (Hno d)].
Qed.

Lemma str_int_inj n n' : str_int n = str_int n' -> n = n'.
Proof.
  unfold str_int. intros H. apply DecimalZ.to_int_inj.
  assert (Hhead : forall d rest, uint_chars d <> 45%N :: rest).
  { intros d rest Heq. pose proof (uint_chars_digits d) as Hall.
    rewrite Heq in Hall. inversion Hall; subst. lia. }
  destruct (Z.to_int n) as [d | d], (Z.to_int n') as [d' | d'].
  - f_equal. now apply uint_chars_inj.
  - exfalso. now apply (Hhead d (uint_chars d')).
  - exfalso. symmetry in H. now apply (Hhead d' (uint_chars d)).
  - injection H as H. f_equal. now apply uint_chars_inj.
Qed.

Lemma split_at_underscore (a : list N) : forall a' b b',
  95%N ∉ a -> 95%N ∉ a' ->
  a ++ 95%N :: b = a' ++ 95%N :: b' -> a = a' /\ b = b'.
Proof.
  induction a as [|x a IH]; intros [|x' a'] b b' Ha Ha' H; simpl in H.
  - injection H as <-. now split.
  - injection H as <- _. exfalso. apply Ha'. constructor.
  - injection H as -> _. exfalso. apply Ha. constructor.
  - injection H as <- H.
    destruct (IH a' b b') as [-> ->]; [| |exact H|now split].
    + intros Hin. apply Ha. now constructor.
    + intros Hin. apply Ha'. now constructor.
Qed.

Lemma key_body_inj (t t' : Z * Z) :
  str_int (fst t) ++ lit "_" ++ str_int (snd t)
    = str_int (fst t') ++ lit "_" ++ str_int (snd t') ->
  t = t'.
Proof.
  intros H.
  destruct (split_at_underscore _ _ _ _ (str_int_no_underscore (fst t))
              (str_int_no_underscore (fst t')) H) as [H1 H2].
  apply str_int_inj in H1, H2. destruct t, t'; simpl in *. congruence.
Qed.

(** X3.  Two clock times have the same fixed key, or the same random key,
    only when they are the same time, whatever the integers: [(1, 12)] and
    [(11, 2)] give different keys.  A fixed key is never a random key. *)
Theorem slot_keys_injective (t t' : Z * Z) :
  (fixed_key t = fixed_key t' -> t = t') /\
  (random_key t = random_key t' -> t = t') /\
  fixed_key t <> random_key t'.
Proof.
  split; [|split].
  - unfold fixed_key. intros H. apply app_inv_head in H. now apply key_body_inj.
  - unfold random_key. intros H. apply app_inv_head in H. now apply key_body_inj.
  - apply fixed_key_ne_random_key.
Qed.

(** ** The claim on any stored document *)

(** X4.  A call of [mark_as_sent] changes the world only when it answers
    true.  Then one write of the control file was attempted, and the log and
    the POSTs are untouched; when the write took effect, the stored [sent]
    is the old list with the key added at its end and every other member of
    the record ([date], [random_times]) is as before; when it did not, the
    file is as it was, or cannot be read, or holds no document.  With any
    other outcome, an answer of false or an exception, the world is the one
    before the call. *)
Theorem mark_as_sent_changes_only_on_true (key : list N) (w : world) :
  (fst (mark_as_sent key w) = Ok true /\
   writes (snd (mark_as_sent key w)) = S (writes w) /\
   session_log (snd (mark_as_sent key w)) = session_log w /\
   outbox (snd (mark_as_sent key w)) = outbox w /\
   exists d sent,
     stored_control (control_file w) = JObject d /\
     d !! lit "sent" = Some (PList sent) /\
     key_in sent key = false /\
     match disk w (writes w) with
     | Written =>
         exists d',
           control_file (snd (mark_as_sent key w)) = Holds (JObject d') /\
           d' !! lit "sent" = Some (PList (sent ++ [EStr key])) /\
           forall member, member <> lit "sent" -> d' !! member = d !! member
     | WrittenUnreadable =>
         control_file (snd (mark_as_sent key w)) = Unreadable
     | OpenFails =>
         control_file (snd (mark_as_sent key w)) = control_file w
     | WriteFails _ =>
         control_file (snd (mark_as_sent key w)) = Corrupt
     end) \/
  (fst (mark_as_sent key w) <> Ok true /\ snd (mark_as_sent key w) = w).
Proof.
  destruct (mark_as_sent_outcome key w)
    as [(d & l & Hc & Hs & Hk & Hrun) | (r & Hrun & Hr)].
  - left. rewrite Hrun. unfold after_write. simpl.
    split; [reflexivity|].
    split; [destruct (disk w (writes w)); reflexivity|].
    split; [destruct (disk w (writes w)); reflexivity|].
    split; [destruct (disk w (writes w)); reflexivity|].
    exists d, l. repeat split; try assumption.
    destruct (disk w (writes w)); try reflexivity.
    exists (<[lit "sent" := PList (l ++ [EStr key])]> d).
    split; [reflexivity|]. split; [apply lookup_insert_eq|].
    intros member Hne. now apply lookup_insert_ne.
  - right. rewrite Hrun. now split.
Qed.

(** X5.  What [mark_as_sent] does when the stored document has no list
    under [sent].  A document that is not an object, or a [sent] that is
    null or a number, raises TypeError; an object without [sent] raises
    KeyError; a [sent] that is a string answers false when the key occurs in
    it as a substring and raises AttributeError otherwise.  In each case the
    world is left as it was. *)
Theorem mark_as_sent_without_sent_list (key : list N) (w : world) :
  match stored_control (control_file w) with
  | JOther => mark_as_sent key w = (Raise TypeError, w)
  | JObject d =>
      match d !! lit "sent" with
      | None => mark_as_sent key w = (Raise (KeyError (Some (lit "sent"))), w)
      | Some PNone | Some (PInt _) => mark_as_sent key w = (Raise TypeError, w)
      | Some (PStr s) =>
          mark_as_sent key w =
            (if is_substring key s then Ok false else Raise AttributeError, w)
      | Some (PList sent) =>
          mark_as_sent key w = (Ok false, w) \/
          fst (mark_as_sent key w) = Ok true
      end
  end.
Proof.
  assert (Hstart : forall j,
            stored_control (control_file w) = j ->
            mark_as_sent key w =
              bind (getitem j (lit "sent"))
                (fun sent =>
                   bind (contains sent key)
                     (fun present =>
                        if present : bool then ret false
                        else bind (append sent key)
                               (fun sent' =>
                                  bind (save_control
                                          (with_item j (lit "sent") sent'))
                                    (fun _ => ret true)))) w).
  { intros j Hj. unfold mark_as_sent.
    now rewrite (bind_ok _ _ _ _ _ (load_control_run w)), Hj. }
  destruct (stored_control (control_file w)) as [d|] eqn:Hc;
    [|now rewrite (Hstart _ eq_refl)].
  destruct (d !! lit "sent") as [v|] eqn:Hs.
  2:{ rewrite (Hstart _ eq_refl). unfold getitem. now rewrite Hs. }
  destruct v as [| z | s | l].
  - rewrite (Hstart _ eq_refl). unfold getitem. now rewrite Hs.
  - rewrite (Hstart _ eq_refl). unfold getitem. now rewrite Hs.
  - rewrite (Hstart _ eq_refl). unfold getitem. rewrite Hs.
    unfold bind, ret, contains, append, raise.
    now destruct (is_substring key s).
  - destruct (key_in l key) eqn:Hk.
    + left. now apply (mark_as_sent_present key w d l).
    + right. now rewrite (mark_as_sent_fresh key w d l).
Qed.

(** ** The rollover on any stored document *)

Section RolloverEdges.

Variable rng : nat -> Z.

(** X6.  The rollover block raises in two cases only: the stored document
    is not an object (TypeError) or it has no [date] member (KeyError), and
    then it writes nothing.  With any [date] member it returns, whatever
    [sent] and [random_times] hold. *)
Theorem ensure_today_raises_only_without_date (today : list N) (w : world) :
  match stored_control (control_file w) with
  | JOther => ensure_today rng today w = (Raise TypeError, w)
  | JObject d =>
      match d !! lit "date" with
      | None =>
          ensure_today rng today w = (Raise (KeyError (Some (lit "date"))), w)
      | Some date => exists w', ensure_today rng today w = (Ok tt, w')
      end
  end.
Proof.
  destruct (stored_control (control_file w)) as [d|] eqn:Hc.
  2:{ unfold ensure_today.
      now rewrite (bind_ok _ _ _ _ _ (load_control_run w)), Hc. }
  destruct (d !! lit "date") as [date|] eqn:Hd.
  2:{ unfold ensure_today.
      rewrite (bind_ok _ _ _ _ _ (load_control_run w)), Hc.
      unfold getitem. now rewrite Hd. }
  destruct (decide (date = PStr today)) as [->|Hne].
  - exists w. now apply (ensure_today_same_day_run rng today w d).
  - destruct (ensure_today_stale_run rng today w d date Hc Hd Hne)
      as (times & w1 & _ & _ & _ & Hrun).
    eexists. exact Hrun.
Qed.

(** X7.  After a rollover of a stale record whose write takes effect,
    every key can be claimed again, also one that was in [sent] the day
    before: the first claim of any key answers true, and the key is stored
    when the write of that claim takes effect too. *)
Theorem rollover_frees_every_key
    (today : list N) (w : world) (d : gmap (list N) pyval) (date : pyval)
    (key : list N) :
  stored_control (control_file w) = JObject d ->
  d !! lit "date" = Some date ->
  date <> PStr today ->
  disk w (writes w) = Written ->
  fst (mark_as_sent key (snd (ensure_today rng today w))) = Ok true /\
  (disk w (S (writes w)) = Written ->
   has_key key (snd (mark_as_sent key (snd (ensure_today rng today w))))).
Proof.
  intros Hc Hd Hne Hw.
  destruct (ensure_today_stale_stored rng today w d date Hc Hd Hne Hw)
    as (times & w1 & _ & (_ & Hwr & Hdisk) & Hrun).
  rewrite Hrun. simpl.
  pose proof (mark_as_sent_fresh key
                (set_file (Holds (fresh_control today times)) w1)
                (<[lit "date" := PStr today]>
                 (<[lit "sent" := PList []]>
                  (<[lit "random_times" :=
                       PList (map (fun hm => EInts [fst hm; snd hm]) times)]> ∅)))
                [] eq_refl) as Hfresh.
  rewrite Hfresh.
  - simpl. split; [reflexivity|]. intros Hw2.
    rewrite after_write_written by (simpl; now rewrite Hdisk, Hwr).
    eexists. split.
    + apply sent_of_set_file. apply lookup_insert_eq.
    + simpl. unfold pystr_eqb. now rewrite bool_decide_true.
  - rewrite lookup_insert_ne by discriminate. apply lookup_insert_eq.
  - reflexivity.
Qed.

End RolloverEdges.

(** ** Generation and delivery *)

Lemma bind_inv_ok {A B} (m : M A) (k : A -> M B) w b w' :
  bind m k w = (Ok b, w') ->
  exists a w1, m w = (Ok a, w1) /\ k a w1 = (Ok b, w').
Proof.
  unfold bind. destruct (m w) as [[a|e] w1]; [|discriminate].
  intros H. now exists a, w1.
Qed.

Lemma same_outbox_refl w : same_outbox w w.
Proof. reflexivity. Qed.

Lemma same_outbox_trans w1 w2 w3 :
  same_outbox w1 w2 -> same_outbox w2 w3 -> same_outbox w1 w3.
Proof. unfold same_outbox. congruence. Qed.

Section Pipeline.

Variable rng : nat -> Z.
Variable anthropic_api : nat -> prompt -> res (list N).
Variable pushover_api : nat -> list N -> list N -> res (Z * list N).
Variable secrets : gmap (list N) (list N).
Variable wall_clock : nat -> list N.

Abbreviation generate_and_send' :=
  (generate_and_send rng anthropic_api pushover_api secrets wall_clock).
Abbreviation deliver' :=
  (deliver rng anthropic_api pushover_api secrets wall_clock).

Local Ltac outbox_steps :=
  repeat first
    [ apply (keeps_ret _ same_outbox_refl)
    | apply (keeps_raise _ same_outbox_refl)
    | apply (keeps_bind _ same_outbox_trans); [|intros ?]
    | apply (keeps_try _ same_outbox_trans); [|intros ?] ].

Lemma random_choice_outbox n : keeps same_outbox (random_choice rng n).
Proof. intros w. unfold random_choice. now destruct n. Qed.

Lemma secret_outbox key : keeps same_outbox (secret secrets key).
Proof. unfold secret. destruct (secrets !! key); now intros w. Qed.

Lemma get_prompt_for_fixed_outbox s t :
  keeps same_outbox (get_prompt_for_fixed rng s t).
Proof.
  unfold get_prompt_for_fixed. destruct s as [s|]; [|outbox_steps].
  case_bool_decide; [|outbox_steps].
  outbox_steps; [apply random_choice_outbox|]. destruct t; outbox_steps.
Qed.

Lemma get_prompt_for_random_outbox :
  keeps same_outbox (get_prompt_for_random rng).
Proof. unfold get_prompt_for_random. outbox_steps; apply random_choice_outbox. Qed.

Lemma generate_message_outbox p :
  keeps same_outbox (generate_message anthropic_api secrets p).
Proof.
  unfold generate_message. outbox_steps; [apply secret_outbox|].
  now intros w.
Qed.

(** X8.  [generate_message] never raises.  Without the secret of the text
    service it makes no call and the world is untouched; with it, it makes
    one call, and the text it returns is the answer of the service or, when
    the call raised, the error text between
    ["[Erro ao gerar mensagem: "] and ["]"].  It makes no POST. *)
Theorem generate_message_never_raises (p : prompt) (w : world) :
  exists text w',
    generate_message anthropic_api secrets p w = (Ok text, w') /\
    outbox w' = outbox w /\
    match secrets !! lit "ANTHROPIC_API_KEY" with
    | None =>
        w' = w /\
        exists detail,
          text = lit "[Erro ao gerar mensagem: " ++ detail ++ lit "]"
    | Some _ =>
        calls w' = S (calls w) /\
        text = match anthropic_api (calls w) p with
               | Ok answer => answer
               | Raise e =>
                   lit "[Erro ao gerar mensagem: " ++ exn_str e ++ lit "]"
               end
    end.
Proof.
  unfold generate_message, try_except, bind, secret, ret, raise, messages_create.
  destruct (secrets !! lit "ANTHROPIC_API_KEY").
  - destruct (anthropic_api (calls w) p); eexists _, _; repeat split.
  - eexists _, _. repeat split. eexists. reflexivity.
Qed.

Lemma send_pushover_run m title w :
  exists r w',
    send_pushover pushover_api secrets m title w = (Ok r, w') /\
    match secrets !! lit "PUSHOVER_USER_KEY",
          secrets !! lit "PUSHOVER_API_TOKEN" with
    | Some _, Some _ =>
        outbox w' = outbox w ++ [(truncate m, title)] /\
        calls w' = S (calls w) /\
        r = match pushover_api (calls w) (truncate m) title with
            | Ok answer => Posted (fst answer) (snd answer)
            | Raise e => Failed (exn_str e)
            end
    | _, _ => w' = w /\ success r = false
    end.
Proof.
  unfold send_pushover, try_except, bind, secret, ret, raise, requests_post.
  destruct (secrets !! lit "PUSHOVER_USER_KEY");
    destruct (secrets !! lit "PUSHOVER_API_TOKEN");
    try (eexists _, _; repeat split; fail).
  destruct (pushover_api (calls w) (truncate m) title);
    eexists _, _; repeat split.
Qed.

(** X9.  [send_pushover] never raises and makes at most one POST.  When one
    of its two secrets is missing it makes none, changes nothing and
    reports a failure.  With both, it makes exactly one POST, of the
    truncated message under the given title, and reports success exactly
    when the service answered with status 200. *)
Theorem send_pushover_never_raises (m title : list N) (w : world) :
  exists r w',
    send_pushover pushover_api secrets m title w = (Ok r, w') /\
    match secrets !! lit "PUSHOVER_USER_KEY",
          secrets !! lit "PUSHOVER_API_TOKEN" with
    | Some _, Some _ =>
        outbox w' = outbox w ++ [(truncate m, title)] /\
        (success r = true <->
         exists body,
           pushover_api (calls w) (truncate m) title = Ok (200%Z, body))
    | _, _ => w' = w /\ success r = false
    end.
Proof.
  destruct (send_pushover_run m title w) as (r & w' & Hrun & Hcase).
  exists r, w'. split; [exact Hrun|].
  destruct (secrets !! lit "PUSHOVER_USER_KEY");
    destruct (secrets !! lit "PUSHOVER_API_TOKEN"); try exact Hcase.
  destruct Hcase as (Hout & _ & ->). split; [exact Hout|].
  destruct (pushover_api (calls w) (truncate m) title) as [[st body]|e]; simpl.
  - split.
    + intros Hst. apply Z.eqb_eq in Hst. subst. now exists body.
    + intros (body' & [= -> _]). reflexivity.
  - split; [discriminate | intros (body & Hbody); discriminate].
Qed.

(** The steps of a call of [generate_and_send] that returns a result: the
    prompt chosen, the text generated for it, which is the message of the
    result, and the POST of that text. *)
Lemma generate_and_send_run stype s t w r w' :
  generate_and_send' stype s t w = (Ok r, w') ->
  type r = stype /\
  result_sanctuary r = sanctuary_or_todos s /\
  exists p w0 w1,
    (if pystr_eqb stype (lit "fixed") then get_prompt_for_fixed rng s t
     else get_prompt_for_random rng) w = (Ok p, w0) /\
    generate_message anthropic_api secrets p w0 = (Ok (message r), w1) /\
    send_pushover pushover_api secrets (message r)
      (if pystr_eqb stype (lit "fixed") then title_map_get s
       else TITLE_INTEGRACAO) w1 = (Ok (pushover r), w') /\
    timestamp r = wall_clock (calls w').
Proof.
  unfold generate_and_send. intros H.
  apply bind_inv_ok in H as (pt & w0 & Hpt & H).
  apply bind_inv_ok in H as (text & w1 & Htext & H).
  apply bind_inv_ok in H as (result & w2 & Hsend & H).
  apply bind_inv_ok in H as (stamp & w3 & Hstamp & H).
  unfold ret in H. injection H as <- <-.
  unfold now_local_text in Hstamp. injection Hstamp as <- <-. simpl.
  split; [reflexivity|]. split; [reflexivity|].
  assert (Hprompt : (if pystr_eqb stype (lit "fixed")
                     then get_prompt_for_fixed rng s t
                     else get_prompt_for_random rng) w = (Ok (fst pt), w0) /\
                    snd pt = if pystr_eqb stype (lit "fixed")
                             then title_map_get s else TITLE_INTEGRACAO).
  { destruct (pystr_eqb stype (lit "fixed"));
      apply bind_inv_ok in Hpt as (p & w00 & Hp & Hret);
      unfold ret in Hret; injection Hret as <- <-; now split. }
  destruct Hprompt as [Hprompt Htitle].
  exists (fst pt), w0, w1. split; [exact Hprompt|]. split; [exact Htext|].
  split; [|reflexivity]. rewrite <- Htitle. exact Hsend.
Qed.

(** The POST of a call of [generate_and_send] that returns a result. *)
Lemma generate_and_send_outbox stype s t w r w' :
  generate_and_send' stype s t w = (Ok r, w') ->
  match secrets !! lit "PUSHOVER_USER_KEY",
        secrets !! lit "PUSHOVER_API_TOKEN" with
  | Some _, Some _ =>
      outbox w' =
        outbox w ++
        [(truncate (message r),
          if pystr_eqb stype (lit "fixed") then title_map_get s
          else TITLE_INTEGRACAO)]
  | _, _ => outbox w' = outbox w /\ success (pushover r) = false
  end.
Proof.
  intros Hrun.
  destruct (generate_and_send_run stype s t w r w' Hrun)
    as (_ & _ & p & w0 & w1 & Hprompt & Htext & Hsend & _).
  assert (Hout1 : outbox w1 = outbox w).
  { pose proof (generate_message_outbox p w0) as H1.
    rewrite Htext in H1. simpl in H1. unfold same_outbox in H1. rewrite H1.
    destruct (pystr_eqb stype (lit "fixed")).
    - pose proof (get_prompt_for_fixed_outbox s t w) as H0.
      now rewrite Hprompt in H0.
    - pose proof (get_prompt_for_random_outbox w) as H0.
      now rewrite Hprompt in H0. }
  destruct (send_pushover_run (message r)
              (if pystr_eqb stype (lit "fixed") then title_map_get s
               else TITLE_INTEGRACAO) w1) as (r0 & w20 & Hrun0 & Hcase).
  rewrite Hsend in Hrun0. injection Hrun0 as <- <-.
  destruct (secrets !! lit "PUSHOVER_USER_KEY");
    destruct (secrets !! lit "PUSHOVER_API_TOKEN").
  - destruct Hcase as (Hout & _). now rewrite Hout, Hout1.
  - destruct Hcase as (-> & Hfail). split; [congruence | exact Hfail].
  - destruct Hcase as (-> & Hfail). split; [congruence | exact Hfail].
  - destruct Hcase as (-> & Hfail). split; [congruence | exact Hfail].
Qed.

(** X10.  When [generate_and_send] returns a result, the result names the
    kind of message asked for and the sanctuary (or ["todos"]), and its
    message is the whole text that [generate_message] returned for the
    prompt chosen; the control file and the log are untouched.  With both
    secrets of the push service it has made exactly one POST, whose text is
    the truncation of that message and whose title is that of the
    sanctuary, or of the integration message; without one of them it has
    made none and the result reports a failure. *)
Theorem generate_and_send_posts_truncated_message
    (stype : list N) (s t : option (list N)) (w w' : world)
    (r : delivery_result) :
  generate_and_send' stype s t w = (Ok r, w') ->
  type r = stype /\
  result_sanctuary r = sanctuary_or_todos s /\
  control_file w' = control_file w /\
  session_log w' = session_log w /\
  (exists p w0 w1,
     (if pystr_eqb stype (lit "fixed") then get_prompt_for_fixed rng s t
      else get_prompt_for_random rng) w = (Ok p, w0) /\
     generate_message anthropic_api secrets p w0 = (Ok (message r), w1)) /\
  match secrets !! lit "PUSHOVER_USER_KEY",
        secrets !! lit "PUSHOVER_API_TOKEN" with
  | Some _, Some _ =>
      outbox w' =
        outbox w ++
        [(truncate (message r),
          if pystr_eqb stype (lit "fixed") then title_map_get s
          else TITLE_INTEGRACAO)]
  | _, _ => outbox w' = outbox w /\ success (pushover r) = false
  end.
Proof.
  intros Hrun.
  pose proof (generate_and_send_keeps rng anthropic_api pushover_api secrets
                wall_clock stype s t w) as Hk.
  rewrite Hrun in Hk. simpl in Hk. destruct Hk as [(Hfile & _) Hlog].
  destruct (generate_and_send_run stype s t w r w' Hrun)
    as (Htype & Hsan & p & w0 & w1 & Hprompt & Htext & Hsend & _).
  split; [exact Htype|]. split; [exact Hsan|].
  split; [exact Hfile|]. split; [exact Hlog|].
  split; [now exists p, w0, w1|].
  exact (generate_and_send_outbox stype s t w r w' Hrun).
Qed.

(** X11.  For a sanctuary outside the three of the table,
    [generate_and_send] raises KeyError before any random draw, call or
    POST, and the delivery step of a slot swallows it: the step returns and
    the world, the log included, is unchanged. *)
Theorem unknown_sanctuary_delivers_nothing
    (s : list N) (t : option (list N)) (w : world) :
  s <> CABECA -> s <> PELVIS -> s <> CORACAO ->
  generate_and_send' (lit "fixed") (Some s) t w
    = (Raise (KeyError (Some s)), w) /\
  deliver' (lit "fixed") (Some s) t w = (Ok tt, w).
Proof.
  intros H1 H2 H3.
  assert (Hgen : generate_and_send' (lit "fixed") (Some s) t w
                 = (Raise (KeyError (Some s)), w)).
  { unfold generate_and_send.
    replace (pystr_eqb (lit "fixed") (lit "fixed")) with true by reflexivity.
    unfold get_prompt_for_fixed.
    rewrite bool_decide_false by tauto. reflexivity. }
  split; [exact Hgen|].
  unfold deliver, try_except, bind. now rewrite Hgen.
Qed.

End Pipeline.

(** ** The POSTs and the claims of a day *)

Lemma key_in_EStr sent keys k :
  k ∈ keys -> key_in (sent ++ map EStr keys) k = true.
Proof.
  intros Hin. unfold key_in. rewrite existsb_app. apply orb_true_iff. right.
  apply existsb_exists. exists (EStr k). split.
  - apply in_map. now apply list_elem_of_In.
  - simpl. unfold pystr_eqb. now rewrite bool_decide_true.
Qed.

Lemma key_in_app_false sent more k :
  key_in (sent ++ more) k = false -> key_in sent k = false.
Proof.
  unfold key_in. rewrite existsb_app. intros H.
  now apply orb_false_iff in H as [? _].
Qed.

Lemma key_in_false_not_elem sent k : key_in sent k = false -> EStr k ∉ sent.
Proof.
  intros Hk Hin. apply not_true_iff_false in Hk. apply Hk.
  apply existsb_exists. exists (EStr k). split.
  - now apply list_elem_of_In.
  - simpl. unfold pystr_eqb. now rewrite bool_decide_true.
Qed.

Section Covered.

Variable K : list N -> Prop.

Lemma posts_covered_refl w : posts_covered K w w.
Proof.
  intros Hd Hwf. split; [exact Hd|]. split; [exact Hwf|].
  intros d sent Hc Hs. exists [], []. simpl. rewrite !app_nil_r, Hc.
  split; [f_equal; symmetry; now apply insert_id|].
  split; [reflexivity|]. split; [lia|].
  split; [constructor|]. split; constructor.
Qed.

Lemma posts_covered_grows w w' :
  posts_covered K w w' -> sound_disk w -> well_formed w -> grows w w'.
Proof.
  intros H Hd Hwf d sent Hc Hs. destruct (H Hd Hwf) as (_ & _ & Hcov).
  destruct (Hcov d sent Hc Hs) as (keys & posts & H1 & _).
  now exists (map EStr keys).
Qed.

Lemma posts_covered_trans w1 w2 w3 :
  posts_covered K w1 w2 -> posts_covered K w2 w3 -> posts_covered K w1 w3.
Proof.
  intros H12 H23 Hd1 Hwf1.
  destruct (H12 Hd1 Hwf1) as (Hd2 & Hwf2 & C12).
  destruct (H23 Hd2 Hwf2) as (Hd3 & Hwf3 & C23).
  split; [exact Hd3|]. split; [exact Hwf3|].
  intros d sent Hc Hs.
  destruct (C12 d sent Hc Hs)
    as (k1 & p1 & Hc2 & Ho2 & Hl1 & HK1 & Hnd1 & Hnew1).
  destruct (C23 _ (sent ++ map EStr k1) Hc2 (lookup_insert_eq _ _ _))
    as (k2 & p2 & Hc3 & Ho3 & Hl2 & HK2 & Hnd2 & Hnew2).
  exists (k1 ++ k2), (p1 ++ p2).
  split. { rewrite Hc3, insert_insert_eq, map_app. now rewrite app_assoc. }
  split. { rewrite Ho3, Ho2. now rewrite app_assoc. }
  split. { rewrite !length_app. lia. }
  split. { apply Forall_app. now split. }
  split.
  { apply NoDup_app. split; [exact Hnd1|]. split; [|exact Hnd2].
    intros k Hin1 Hin2.
    rewrite Forall_forall in Hnew2. specialize (Hnew2 k Hin2).
    rewrite (key_in_EStr sent k1 k Hin1) in Hnew2. discriminate. }
  apply Forall_app. split; [exact Hnew1|].
  eapply Forall_impl; [exact Hnew2|]. intros k. apply key_in_app_false.
Qed.

Lemma keeps_for_each_in {A} (xs : list A) body :
  (forall x, x ∈ xs -> keeps (posts_covered K) (body x)) ->
  keeps (posts_covered K) (for_each xs body).
Proof.
  induction xs as [|x xs IH]; intros Hb; simpl.
  - apply (keeps_ret _ posts_covered_refl).
  - apply (keeps_bind _ posts_covered_trans).
    + apply Hb. now left.
    + intros _. apply IH. intros y Hy. apply Hb. now right.
Qed.

End Covered.

Lemma posts_covered_mono (K K' : list N -> Prop) w w' :
  (forall k, K k -> K' k) -> posts_covered K w w' -> posts_covered K' w w'.
Proof.
  intros HK H Hd Hwf. destruct (H Hd Hwf) as (Hd' & Hwf' & Hcov).
  split; [exact Hd'|]. split; [exact Hwf'|].
  intros d sent Hc Hs.
  destruct (Hcov d sent Hc Hs) as (keys & posts & H1 & H2 & H3 & H4 & H5 & H6).
  exists keys, posts.
  split; [exact H1|]. split; [exact H2|]. split; [exact H3|].
  split; [|now split].
  eapply Forall_impl; [exact H4 | exact HK].
Qed.

Lemma keeps_distinct_refl w : keeps_distinct w w.
Proof. now intros H. Qed.

Lemma keeps_distinct_trans w1 w2 w3 :
  keeps_distinct w1 w2 -> keeps_distinct w2 w3 -> keeps_distinct w1 w3.
Proof. unfold keeps_distinct. tauto. Qed.

Lemma same_file_distinct w w' : same_file w w' -> keeps_distinct w w'.
Proof.
  intros (Hf & _) Hnd sent Hs. apply Hnd. unfold sent_of in *. now rewrite <- Hf.
Qed.

(** After a write of a record whose [sent] has no entry twice, the stored
    [sent] has none, whatever became of the write: it is the new list, the
    old one, or the empty list of the default state. *)
Lemma after_write_distinct d l w :
  d !! lit "sent" = Some (PList l) ->
  NoDup l ->
  sent_distinct w ->
  sent_distinct (after_write (JObject d) w).
Proof.
  intros Hl Hnd Hold sent Hs. unfold after_write in Hs.
  destruct (disk w (writes w)).
  - rewrite (sent_of_set_file d l) in Hs by exact Hl. now injection Hs as <-.
  - injection Hs as <-. constructor.
  - now apply Hold.
  - injection Hs as <-. constructor.
Qed.

Lemma mark_as_sent_distinct key : keeps keeps_distinct (mark_as_sent key).
Proof.
  intros w.
  destruct (mark_as_sent_outcome key w)
    as [(d & l & Hc & Hs & Hk & Hrun) | (r & Hrun & _)]; rewrite Hrun; simpl.
  - intros Hnd.
    apply (after_write_distinct _ (l ++ [EStr key]));
      [apply lookup_insert_eq | | exact Hnd].
    apply NoDup_app. split; [|split; [|apply NoDup_singleton]].
    + apply Hnd. unfold sent_of. now rewrite Hc, Hs.
    + intros e He Hin. apply list_elem_of_singleton in Hin. subst e.
      now apply (key_in_false_not_elem l key).
  - apply keeps_distinct_refl.
Qed.

Section DayOfPasses.

Variable rng : nat -> Z.
Variable anthropic_api : nat -> prompt -> res (list N).
Variable pushover_api : nat -> list N -> list N -> res (Z * list N).
Variable secrets : gmap (list N) (list N).
Variable wall_clock : nat -> list N.

Abbreviation generate_and_send' :=
  (generate_and_send rng anthropic_api pushover_api secrets wall_clock).
Abbreviation deliver' :=
  (deliver rng anthropic_api pushover_api secrets wall_clock).
Abbreviation fixed_slot' :=
  (fixed_slot rng anthropic_api pushover_api secrets wall_clock).
Abbreviation random_slot' :=
  (random_slot rng anthropic_api pushover_api secrets wall_clock).
Abbreviation check_slots' :=
  (check_slots rng anthropic_api pushover_api secrets wall_clock).
Abbreviation scheduler_tick' :=
  (scheduler_tick rng anthropic_api pushover_api secrets wall_clock).
Abbreviation scheduler_loop' :=
  (scheduler_loop rng anthropic_api pushover_api secrets wall_clock).

(** Generation and delivery make at most one POST, whatever they return or
    raise. *)
Lemma generate_and_send_posts stype s t w :
  exists posts,
    outbox (snd (generate_and_send' stype s t w)) = outbox w ++ posts /\
    length posts <= 1.
Proof.
  unfold generate_and_send.
  match goal with
  | |- context [bind ?m _ w] => set (PT := m)
  end.
  assert (HPT : keeps same_outbox PT).
  { subst PT. destruct (pystr_eqb stype (lit "fixed")).
    - apply (keeps_bind _ same_outbox_trans);
        [apply get_prompt_for_fixed_outbox|].
      intros p. apply (keeps_ret _ same_outbox_refl).
    - apply (keeps_bind _ same_outbox_trans);
        [apply get_prompt_for_random_outbox|].
      intros p. apply (keeps_ret _ same_outbox_refl). }
  unfold bind at 1. specialize (HPT w).
  destruct (PT w) as [[pt|e] w0]; simpl in HPT; unfold same_outbox in HPT.
  2:{ exists []. simpl. rewrite app_nil_r. split; [exact HPT | lia]. }
  unfold bind at 1.
  pose proof (generate_message_outbox anthropic_api secrets (fst pt) w0) as HG.
  destruct (generate_message anthropic_api secrets (fst pt) w0)
    as [[m|e] w1]; simpl in HG; unfold same_outbox in HG.
  2:{ exists []. simpl. rewrite app_nil_r. split; [congruence | lia]. }
  destruct (send_pushover_run pushover_api secrets m (snd pt) w1)
    as (r & w2 & Hrun & Hcase).
  unfold bind at 1. rewrite Hrun.
  unfold bind, now_local_text, ret. simpl.
  destruct (secrets !! lit "PUSHOVER_USER_KEY");
    destruct (secrets !! lit "PUSHOVER_API_TOKEN").
  - destruct Hcase as (Ho & _). exists [(truncate m, snd pt)].
    split; [rewrite Ho; congruence | simpl; lia].
  - destruct Hcase as (-> & _). exists []. rewrite app_nil_r.
    split; [congruence | simpl; lia].
  - destruct Hcase as (-> & _). exists []. rewrite app_nil_r.
    split; [congruence | simpl; lia].
  - destruct Hcase as (-> & _). exists []. rewrite app_nil_r.
    split; [congruence | simpl; lia].
Qed.

Lemma deliver_posts stype s t w :
  exists w' posts,
    deliver' stype s t w = (Ok tt, w') /\ same_file w w' /\
    outbox w' = outbox w ++ posts /\ length posts <= 1.
Proof.
  destruct (deliver_run rng anthropic_api pushover_api secrets wall_clock
              stype s t w) as (w' & Hrun & Hf).
  destruct (generate_and_send_posts stype s t w) as (posts & Ho & Hl).
  exists w', posts. split; [exact Hrun|]. split; [exact Hf|].
  split; [|exact Hl].
  unfold deliver, try_except, bind in Hrun.
  destruct (generate_and_send' stype s t w) as [[r|e] w1]; simpl in Ho.
  - unfold log_result in Hrun. simpl in Hrun. injection Hrun as <-. exact Ho.
  - unfold ret in Hrun. injection Hrun as <-. exact Ho.
Qed.

(** A claim and, when it succeeds, the delivery: one key more and at most
    one POST, or nothing at all. *)
Lemma claim_and_deliver_covered (K : list N -> Prop) key stype s t :
  K key ->
  keeps (posts_covered K)
    (bind (mark_as_sent key)
       (fun claimed => if claimed : bool then deliver' stype s t else ret tt)).
Proof.
  intros HK w.
  destruct (mark_as_sent_outcome key w)
    as [(d & l & Hc & Hs & Hk & Hrun) | (r & Hrun & Hr)].
  - rewrite (bind_ok _ _ _ _ _ Hrun). intros Hd Hwf.
    rewrite after_write_written by apply Hd.
    destruct (deliver_posts stype s t
                (set_file
                   (Holds (JObject (<[lit "sent" := PList (l ++ [EStr key])]> d)))
                   w)) as (w2 & posts & Hdl & Hfile & Ho & Hl).
    rewrite Hdl. simpl.
    split; [apply (same_file_sound _ _ Hfile); now apply sound_disk_set_file|].
    split.
    { apply (well_formed_of_file _ _ (proj1 Hfile)).
      apply (grows_well_formed w); [exact Hwf|].
      intros d' sent' Hc' Hs'. rewrite Hc in Hc'. injection Hc' as <-.
      rewrite Hs in Hs'. injection Hs' as <-. now exists [EStr key]. }
    destruct Hfile as (Hf & _ & _).
    intros d' sent' Hc' Hs'. rewrite Hc in Hc'. injection Hc' as <-.
    rewrite Hs in Hs'. injection Hs' as <-.
    exists [key], posts.
    split; [now rewrite Hf|]. split; [exact Ho|].
    split; [simpl; lia|]. split; [now repeat constructor|].
    split; [apply NoDup_singleton | now repeat constructor].
  - unfold bind. rewrite Hrun.
    destruct r as [[|]|e]; [congruence| |]; apply posts_covered_refl.
Qed.

Lemma fixed_slot_covered now sch :
  sch ∈ FIXED_SCHEDULES ->
  keeps (posts_covered (due_key now)) (fixed_slot' (hour now, minute now) sch).
Proof.
  intros Hin. unfold fixed_slot. case_bool_decide as Hhm.
  - apply claim_and_deliver_covered. left. rewrite Hhm. split; [|reflexivity].
    apply list_elem_of_fmap. now exists sch.
  - apply (keeps_ret _ (posts_covered_refl _)).
Qed.

(** A stored time that is a list of integers gives, when it is due, the
    key of the clock reading. *)
Lemma random_slot_covered now e :
  time_entry e ->
  keeps (posts_covered (due_key now)) (random_slot' (hour now, minute now) e).
Proof.
  intros (zs & -> & Hlen) w. unfold random_slot.
  destruct zs as [|a [|b rest]]; simpl in Hlen; try lia.
  rewrite (bind_ok _ _ w (map AInt (a :: b :: rest)) w) by reflexivity.
  rewrite (bind_ok _ _ w (AInt a) w) by reflexivity.
  rewrite (bind_ok _ _ w (AInt b) w) by reflexivity.
  destruct (tuple_eq (hour now, minute now) (map AInt (a :: b :: rest)))
    eqn:Hrt; [|apply posts_covered_refl].
  apply tuple_eq_ints in Hrt. injection Hrt as -> -> ->.
  apply (claim_and_deliver_covered (due_key now)
           (random_key (hour now, minute now))).
  now right.
Qed.

Lemma check_slots_covered now :
  keeps (posts_covered (due_key now)) (check_slots' now).
Proof.
  intros w. unfold check_slots.
  pose proof (keeps_for_each_in (due_key now) FIXED_SCHEDULES
                (fixed_slot' (hour now, minute now))
                (fun sch Hin => fixed_slot_covered now sch Hin) w) as H01.
  unfold bind at 1.
  destruct (for_each FIXED_SCHEDULES (fixed_slot' (hour now, minute now)) w)
    as [[[]|e] w1]; simpl in H01; [|exact H01].
  rewrite (bind_ok _ _ _ _ _ (load_control_run w1)).
  intros Hd Hwf. destruct (H01 Hd Hwf) as (Hd1 & Hwf1 & _).
  destruct (well_formed_times _ Hwf1)
    as (d1 & Hc1 & [[Hnone _] | (times & Hsome & _ & Hall)]).
  - rewrite Hc1. unfold get_or_empty. rewrite Hnone.
    exact (H01 Hd Hwf).
  - rewrite Hc1. unfold get_or_empty. rewrite Hsome.
    rewrite (bind_ok _ _ w1 (PList times) w1) by reflexivity.
    rewrite (bind_ok _ _ w1 times w1) by reflexivity.
    refine (posts_covered_trans _ w w1 _ H01 _ Hd Hwf).
    apply keeps_for_each_in. intros e He.
    apply random_slot_covered.
    rewrite Forall_forall in Hall. now apply Hall.
Qed.

Lemma scheduler_tick_same_day_covered now w :
  date_is (today_str now) w ->
  posts_covered (due_key now) w (snd (scheduler_tick' now w)).
Proof.
  intros (d & Hc & Hd). unfold scheduler_tick.
  rewrite (bind_ok _ _ _ _ _
             (ensure_today_same_day_run rng _ w d Hc Hd)).
  apply check_slots_covered.
Qed.

Lemma scheduler_loop_same_day_covered today nows : forall w,
  Forall (fun now => today_str now = today) nows ->
  date_is today w ->
  posts_covered (fun key => exists now, now ∈ nows /\ due_key now key)
    w (snd (scheduler_loop' nows w)).
Proof.
  induction nows as [|now nows IH]; intros w Hday Hdate.
  - apply posts_covered_refl.
  - inversion Hday as [|? ? Hnow Hrest]; subst.
    pose proof (scheduler_tick_same_day_covered now w Hdate) as Hc.
    assert (Hc' : posts_covered
                    (fun key => exists now', now' ∈ now :: nows /\ due_key now' key)
                    w (snd (scheduler_tick' now w))).
    { eapply posts_covered_mono; [|exact Hc].
      intros k Hk. exists now. split; [now left | exact Hk]. }
    unfold scheduler_loop in *. simpl. unfold bind.
    destruct (scheduler_tick' now w) as [[[]|e] w1]; simpl in *; [|exact Hc'].
    intros Hd Hwf.
    pose proof (posts_covered_grows _ _ _ Hc Hd Hwf) as Hg.
    refine (posts_covered_trans _ w w1 _ Hc' _ Hd Hwf).
    eapply posts_covered_mono; [|apply IH; [exact Hrest|]].
    + intros k (now' & Hin & Hk). exists now'. split; [now right | exact Hk].
    + eapply grows_date_is; [apply well_formed_sent_of | |]; eauto.
Qed.

(** X12.  Take a well-formed record, with its stored times lists of
    integers, on the day it is dated, and writes of the control file that
    take effect.  Over any passes of the scheduler on that day the stored
    [sent] is the old list followed by the keys claimed, which are pairwise
    distinct, were not in [sent] before, and each is the key of a fixed
    slot of the table or of a random slot at the hour and minute of one of
    the passes; and the number of POSTs made is at most the number of keys
    claimed, however many passes fall on one minute. *)
Theorem same_day_posts_covered_by_claims
    (today : list N) (nows : list datetime) (w : world) (sent : list elem) :
  sound_disk w ->
  well_formed w ->
  Forall (fun now => today_str now = today) nows ->
  date_is today w ->
  sent_of w = Some sent ->
  exists keys posts,
    sent_of (snd (scheduler_loop' nows w)) = Some (sent ++ map EStr keys) /\
    outbox (snd (scheduler_loop' nows w)) = outbox w ++ posts /\
    length posts <= length keys /\
    NoDup keys /\
    Forall (fun k => key_in sent k = false) keys /\
    Forall (fun k => exists now, now ∈ nows /\ due_key now k) keys.
Proof.
  intros Hd Hwf Hday Hdate Hs.
  destruct (sent_of_inv _ _ Hs) as (d & Hc & Hl).
  destruct (scheduler_loop_same_day_covered today nows w Hday Hdate Hd Hwf)
    as (_ & _ & Hcov).
  destruct (Hcov d sent Hc Hl)
    as (keys & posts & Hc' & Ho & Hlen & HK & Hnd & Hnew).
  exists keys, posts.
  split; [unfold sent_of; rewrite Hc'; now rewrite lookup_insert_eq|].
  now repeat split.
Qed.

(** *** The stored list of keys has no duplicate *)

Local Ltac distinct_steps :=
  repeat first
    [ apply (keeps_ret _ keeps_distinct_refl)
    | apply (keeps_raise _ keeps_distinct_refl)
    | apply (keeps_bind _ keeps_distinct_trans); [|intros ?] ].

Lemma deliver_distinct stype s t : keeps keeps_distinct (deliver' stype s t).
Proof.
  intros w. destruct (deliver_run rng anthropic_api pushover_api secrets
                        wall_clock stype s t w) as (w' & Hrun & Hf).
  rewrite Hrun. now apply same_file_distinct.
Qed.

Lemma ensure_today_distinct today : keeps keeps_distinct (ensure_today rng today).
Proof.
  intros w.
  destruct (stored_control (control_file w)) as [d|] eqn:Hc.
  2:{ unfold ensure_today.
      rewrite (bind_ok _ _ _ _ _ (load_control_run w)), Hc.
      apply keeps_distinct_refl. }
  destruct (d !! lit "date") as [date|] eqn:Hd.
  2:{ unfold ensure_today.
      rewrite (bind_ok _ _ _ _ _ (load_control_run w)), Hc.
      unfold getitem. rewrite Hd. apply keeps_distinct_refl. }
  destruct (decide (date = PStr today)) as [->|Hne].
  - rewrite (ensure_today_same_day_run rng today w d Hc Hd).
    apply keeps_distinct_refl.
  - destruct (ensure_today_stale_run rng today w d date Hc Hd Hne)
      as (times & w1 & _ & _ & Hf & Hrun).
    rewrite Hrun. simpl. intros Hnd.
    apply (after_write_distinct _ []).
    + rewrite lookup_insert_ne by discriminate. apply lookup_insert_eq.
    + constructor.
    + now apply (same_file_distinct w).
Qed.

Lemma fixed_slot_distinct hm sch : keeps keeps_distinct (fixed_slot' hm sch).
Proof.
  unfold fixed_slot. case_bool_decide; [|distinct_steps].
  apply (keeps_bind _ keeps_distinct_trans); [apply mark_as_sent_distinct|].
  intros [|]; [apply deliver_distinct | distinct_steps].
Qed.

Lemma random_slot_distinct hm e : keeps keeps_distinct (random_slot' hm e).
Proof.
  unfold random_slot.
  apply (keeps_bind _ keeps_distinct_trans).
  { unfold tuple_of. destruct e; distinct_steps. }
  intros rt. apply (keeps_bind _ keeps_distinct_trans).
  { unfold index. destruct (rt !! 0); distinct_steps. }
  intros rt0. apply (keeps_bind _ keeps_distinct_trans).
  { unfold index. destruct (rt !! 1); distinct_steps. }
  intros rt1. destruct (tuple_eq hm rt); [|distinct_steps].
  apply (keeps_bind _ keeps_distinct_trans); [apply mark_as_sent_distinct|].
  intros [|]; [apply deliver_distinct | distinct_steps].
Qed.

Lemma scheduler_tick_distinct now : keeps keeps_distinct (scheduler_tick' now).
Proof.
  unfold scheduler_tick, check_slots.
  apply (keeps_bind _ keeps_distinct_trans); [apply ensure_today_distinct|].
  intros _. apply (keeps_bind _ keeps_distinct_trans).
  { apply (keeps_for_each _ keeps_distinct_refl keeps_distinct_trans).
    intros sch. apply fixed_slot_distinct. }
  intros _. apply (keeps_bind _ keeps_distinct_trans).
  { intros w. rewrite load_control_run. apply keeps_distinct_refl. }
  intros control. apply (keeps_bind _ keeps_distinct_trans).
  { unfold get_or_empty. destruct control as [d|]; [|distinct_steps].
    destruct (d !! lit "random_times"); distinct_steps. }
  intros times. apply (keeps_bind _ keeps_distinct_trans).
  { unfold iterate. destruct times; distinct_steps. }
  intros entries.
  apply (keeps_for_each _ keeps_distinct_refl keeps_distinct_trans).
  intros e. apply random_slot_distinct.
Qed.

(** X13.  The scheduler never stores a key twice.  If the stored [sent]
    has no entry twice, it has none after any run of passes, over any days,
    whatever the stored document holds otherwise and however the run ends,
    by the end of the readings or by an exception. *)
Theorem scheduler_never_stores_a_key_twice
    (nows : list datetime) (w : world) :
  sent_distinct w -> sent_distinct (snd (scheduler_loop' nows w)).
Proof.
  apply (keeps_for_each _ keeps_distinct_refl keeps_distinct_trans nows
           scheduler_tick' scheduler_tick_distinct w).
Qed.

End DayOfPasses.

(** ** Passes that change nothing *)

Section QuietPasses.

Variable rng : nat -> Z.
Variable anthropic_api : nat -> prompt -> res (list N).
Variable pushover_api : nat -> list N -> list N -> res (Z * list N).
Variable secrets : gmap (list N) (list N).
Variable wall_clock : nat -> list N.

Abbreviation generate_and_send' :=
  (generate_and_send rng anthropic_api pushover_api secrets wall_clock).
Abbreviation deliver' :=
  (deliver rng anthropic_api pushover_api secrets wall_clock).
Abbreviation fixed_slot' :=
  (fixed_slot rng anthropic_api pushover_api secrets wall_clock).
Abbreviation random_slot' :=
  (random_slot rng anthropic_api pushover_api secrets wall_clock).
Abbreviation check_slots' :=
  (check_slots rng anthropic_api pushover_api secrets wall_clock).
Abbreviation scheduler_tick' :=
  (scheduler_tick rng anthropic_api pushover_api secrets wall_clock).

Lemma claim_refused_skips key stype s t w :
  has_key key w ->
  bind (mark_as_sent key)
       (fun claimed => if claimed : bool then deliver' stype s t else ret tt) w
    = (Ok tt, w).
Proof.
  intros Hk. now rewrite (bind_ok _ _ _ _ _ (has_key_refused _ _ Hk)).
Qed.

Lemma fixed_loop_settled hm schs : forall w,
  (forall sch, sch ∈ schs -> hm = time sch ->
               has_key (fixed_key (time sch)) w) ->
  for_each schs (fixed_slot' hm) w = (Ok tt, w).
Proof.
  induction schs as [|sch schs IH]; intros w Hkeys; [reflexivity|].
  assert (Hslot : fixed_slot' hm sch w = (Ok tt, w)).
  { unfold fixed_slot. case_bool_decide as Hhm; [|reflexivity].
    apply claim_refused_skips. apply Hkeys; [now left | exact Hhm]. }
  simpl. rewrite (bind_ok _ _ _ _ _ Hslot).
  apply IH. intros sch' Hin. apply Hkeys. now right.
Qed.

Lemma random_loop_settled hm entries : forall w,
  Forall time_entry entries ->
  (EInts [fst hm; snd hm] ∈ entries -> has_key (random_key hm) w) ->
  for_each entries (random_slot' hm) w = (Ok tt, w).
Proof.
  induction entries as [|e entries IH]; intros w Hall Hkey; [reflexivity|].
  inversion Hall as [|? ? (zs & -> & Hlen) Hrest]; subst.
  assert (Hslot : random_slot' hm (EInts zs) w = (Ok tt, w)).
  { destruct zs as [|a [|b rest]]; simpl in Hlen; try lia.
    unfold random_slot.
    rewrite (bind_ok _ _ w (map AInt (a :: b :: rest)) w) by reflexivity.
    rewrite (bind_ok _ _ w (AInt a) w) by reflexivity.
    rewrite (bind_ok _ _ w (AInt b) w) by reflexivity.
    destruct (tuple_eq hm (map AInt (a :: b :: rest))) eqn:Hrt;
      [|reflexivity].
    apply tuple_eq_ints in Hrt. injection Hrt as -> -> ->.
    apply (claim_refused_skips (random_key hm)). apply Hkey. now left. }
  simpl. rewrite (bind_ok _ _ _ _ _ Hslot).
  apply IH; [exact Hrest|]. intros Hin. apply Hkey. now right.
Qed.

(** A pass on the day of the record, with every slot due at the reading
    already claimed, leaves the world as it is. *)
Lemma scheduler_tick_settled now w :
  well_formed w ->
  date_is (today_str now) w ->
  (forall sch, sch ∈ FIXED_SCHEDULES -> (hour now, minute now) = time sch ->
               has_key (fixed_key (time sch)) w) ->
  (forall times, times_of w = Some times ->
                 EInts [hour now; minute now] ∈ times ->
                 has_key (random_key (hour now, minute now)) w) ->
  scheduler_tick' now w = (Ok tt, w).
Proof.
  intros Hwf (d0 & Hc0 & Hd0) Hfixed Hrandom. unfold scheduler_tick.
  rewrite (bind_ok _ _ _ _ _ (ensure_today_same_day_run rng _ w d0 Hc0 Hd0)).
  unfold check_slots.
  rewrite (bind_ok _ _ _ _ _ (fixed_loop_settled _ _ w Hfixed)).
  rewrite (bind_ok _ _ _ _ _ (load_control_run w)).
  destruct (well_formed_times _ Hwf)
    as (d & Hc & [[Hnone Hno] | (times & Hsome & Hyes & Hall)]).
  - rewrite Hc. unfold get_or_empty. rewrite Hnone. reflexivity.
  - rewrite Hc. unfold get_or_empty. rewrite Hsome.
    rewrite (bind_ok _ _ w (PList times) w) by reflexivity.
    rewrite (bind_ok _ _ w times w) by reflexivity.
    apply random_loop_settled; [exact Hall|]. now apply Hrandom.
Qed.

(** X14.  A pass at a clock reading that is no slot of the day changes
    nothing: when the stored record is well formed and dated today, and the
    hour and minute are neither a time of the fixed table nor a stored
    random time, the pass returns with the world as it was: no write, no
    random draw, no call, no POST, no entry in the log.  (The two display
    keys of the session that close each pass, lines 418-423, are not part
    of the world.) *)
Theorem pass_outside_the_slots_changes_nothing (now : datetime) (w : world) :
  well_formed w ->
  date_is (today_str now) w ->
  (hour now, minute now) ∉ map time FIXED_SCHEDULES ->
  (forall times, times_of w = Some times ->
                 EInts [hour now; minute now] ∉ times) ->
  scheduler_tick' now w = (Ok tt, w).
Proof.
  intros Hwf Hdate Hnf Hnr. apply scheduler_tick_settled; try assumption.
  - intros sch Hin Hhm. exfalso. apply Hnf. rewrite Hhm.
    apply list_elem_of_fmap. now exists sch.
  - intros times Ht Hin. exfalso. now apply (Hnr times Ht).
Qed.

(** X15.  A second pass at the same clock reading changes nothing, as long
    as the writes of the control file take effect.  From a well-formed
    record, of any date, a pass returns, and the pass that follows it
    within the same minute returns with the world the first one left: the
    slots it finds due are claimed already. *)
Theorem second_pass_in_the_minute_changes_nothing
    (now : datetime) (w : world) :
  well_formed w ->
  sound_disk w ->
  exists w1,
    scheduler_tick' now w = (Ok tt, w1) /\
    scheduler_tick' now w1 = (Ok tt, w1).
Proof.
  intros Hwf Hd.
  destruct (scheduler_tick_claims rng anthropic_api pushover_api secrets
              wall_clock now w Hwf Hd)
    as (w1 & Hrun & Hwf1 & _ & Hdate1 & Hfixed & Hrandom).
  exists w1. split; [exact Hrun|].
  now apply scheduler_tick_settled.
Qed.

(** *** A due slot is delivered *)

Lemma FIXED_SCHEDULES_sanctuary sch :
  sch ∈ FIXED_SCHEDULES ->
  (sanctuary sch = CABECA \/ sanctuary sch = PELVIS \/ sanctuary sch = CORACAO) /\
  sanctuary_or_todos (Some (sanctuary sch)) = sanctuary sch.
Proof.
  unfold FIXED_SCHEDULES. intros Hin.
  apply elem_of_cons in Hin as [->|Hin]; [simpl; tauto|].
  apply elem_of_cons in Hin as [->|Hin]; [simpl; tauto|].
  apply elem_of_cons in Hin as [->|Hin]; [simpl; tauto|].
  now apply elem_of_nil in Hin.
Qed.

Lemma after_write_outbox data w : outbox (after_write data w) = outbox w.
Proof. unfold after_write. destruct (disk w (writes w)); reflexivity. Qed.

(** X16.  A fixed slot that is due and not yet claimed is delivered, when
    both secrets of the push service are configured.  The claim answers
    true; generation and delivery return a result, of type ["fixed"] and
    naming the slot's sanctuary; the pass over the slot returns; and
    exactly one POST was made, with the truncation of the message of the
    result and the title of the sanctuary.  This holds whatever the text
    service and the push service answer and whatever becomes of the write
    of the claim; when that write takes effect, the slot's key is at the
    end of [sent]. *)
Theorem due_fixed_slot_is_delivered
    (sch : schedule) (w : world) (sent : list elem) (user token : list N) :
  sch ∈ FIXED_SCHEDULES ->
  sent_of w = Some sent ->
  key_in sent (fixed_key (time sch)) = false ->
  secrets !! lit "PUSHOVER_USER_KEY" = Some user ->
  secrets !! lit "PUSHOVER_API_TOKEN" = Some token ->
  exists r w1 w',
    mark_as_sent (fixed_key (time sch)) w = (Ok true, w1) /\
    generate_and_send' (lit "fixed") (Some (sanctuary sch)) (Some (theme sch)) w1
      = (Ok r, w') /\
    fixed_slot' (time sch) sch w = (Ok tt, w') /\
    outbox w' =
      outbox w ++
      [(truncate (message r), title_map_get (Some (sanctuary sch)))] /\
    type r = lit "fixed" /\
    result_sanctuary r = sanctuary sch /\
    (disk w (writes w) = Written ->
     sent_of w' = Some (sent ++ [EStr (fixed_key (time sch))])).
Proof.
  intros Hin Hs Hk Huser Htoken.
  destruct (FIXED_SCHEDULES_sanctuary sch Hin) as (Hsan & Hname).
  destruct (sent_of_inv _ _ Hs) as (d & Hc & Hl).
  pose proof (mark_as_sent_fresh _ w d sent Hc Hl Hk) as Hclaim.
  set (data := JObject
                 (<[lit "sent" := PList (sent ++ [EStr (fixed_key (time sch))])]>
                  d)) in *.
  destruct (generate_and_send_fixed_returns rng anthropic_api pushover_api
              secrets wall_clock (sanctuary sch) (theme sch)
              (after_write data w) Hsan) as (r & w2 & Hgen).
  pose proof (generate_and_send_keeps rng anthropic_api pushover_api secrets
                wall_clock (lit "fixed") (Some (sanctuary sch))
                (Some (theme sch)) (after_write data w)) as Hkeep.
  rewrite Hgen in Hkeep. simpl in Hkeep. destruct Hkeep as [(Hfile & _) _].
  destruct (generate_and_send_run rng anthropic_api pushover_api secrets
              wall_clock _ _ _ _ _ _ Hgen) as (Htype & Hsanct & _).
  pose proof (generate_and_send_outbox rng anthropic_api pushover_api secrets
                wall_clock _ _ _ _ _ _ Hgen) as Hpost.
  rewrite Huser, Htoken in Hpost.
  replace (pystr_eqb (lit "fixed") (lit "fixed")) with true in Hpost
    by reflexivity.
  rewrite after_write_outbox in Hpost.
  exists r, (after_write data w), w2.
  split; [exact Hclaim|]. split; [exact Hgen|].
  split.
  { unfold fixed_slot. rewrite bool_decide_true by reflexivity.
    rewrite (bind_ok _ _ _ _ _ Hclaim).
    unfold deliver, try_except, bind. now rewrite Hgen. }
  split; [exact Hpost|].
  split; [exact Htype|]. split; [now rewrite Hsanct|].
  intros Hw. unfold sent_of. rewrite Hfile.
  rewrite after_write_written by exact Hw. simpl. subst data.
  now rewrite lookup_insert_eq.
Qed.

End QuietPasses.

(** ** The page without its secrets *)

(** X18.  When one of the three secrets is absent or empty, a run of the
    page stops after the check of the configuration: it returns, and
    whether or not the button was pressed it makes no random draw, no call
    and no POST and leaves the control file alone; the session log is the
    one it found, or the empty log when there was none. *)
Theorem main_without_a_secret_sends_nothing
    (rng : nat -> Z) (anthropic_api : nat -> prompt -> res (list N))
    (pushover_api : nat -> list N -> list N -> res (Z * list N))
    (secrets : gmap (list N) (list N)) (wall_clock : nat -> list N)
    (key : list N) (pressed : option (list N)) (w : world) :
  key ∈ [lit "ANTHROPIC_API_KEY"; lit "PUSHOVER_USER_KEY";
         lit "PUSHOVER_API_TOKEN"] ->
  secrets !! key = None \/ secrets !! key = Some [] ->
  exists w',
    main rng anthropic_api pushover_api secrets wall_clock pressed w
      = (Ok tt, w') /\
    outbox w' = outbox w /\ calls w' = calls w /\ draws w' = draws w /\
    control_file w' = control_file w /\ writes w' = writes w /\
    session_log w' = Some (default [] (session_log w)).
Proof.
  intros Hkey Hmiss.
  assert (Hm : exists k ks, missing_secrets secrets = k :: ks).
  { unfold missing_secrets.
    apply elem_of_cons in Hkey as [->|Hkey].
    { simpl. destruct Hmiss as [-> | ->]; eauto. }
    apply elem_of_cons in Hkey as [->|Hkey].
    { simpl. destruct (secrets !! lit "ANTHROPIC_API_KEY") as [[|? ?]|];
        destruct Hmiss as [-> | ->]; eauto. }
    apply elem_of_cons in Hkey as [->|Hkey]; [|now apply elem_of_nil in Hkey].
    simpl. destruct (secrets !! lit "ANTHROPIC_API_KEY") as [[|? ?]|];
      destruct (secrets !! lit "PUSHOVER_USER_KEY") as [[|? ?]|];
      destruct Hmiss as [-> | ->]; eauto. }
  destruct Hm as (k & ks & Hm).
  unfold main. rewrite Hm. unfold bind, init_log, ret.
  destruct (session_log w) as [l|] eqn:Hlog.
  - exists w. now repeat split.
  - eexists. split; [reflexivity|]. now repeat split.
Qed.

(** ** The start of the scheduler thread *)

Lemma script_runs_length runs : forall p,
  length (snd (script_runs runs p)) = length runs.
Proof.
  induction runs as [|[stamp s] rest IH]; intros p; [reflexivity|].
  simpl. specialize (IH {| scheduler_started := true;
                           threads_started := S (threads_started p) |}).
  destruct (script_runs rest _) as [p2 others]. simpl in *. now rewrite IH.
Qed.

Lemma script_runs_threads runs : forall p,
  threads_started (fst (script_runs runs p))
    = threads_started p + length runs.
Proof.
  induction runs as [|[stamp s] rest IH]; intros p; [simpl; lia|].
  simpl. specialize (IH {| scheduler_started := true;
                           threads_started := S (threads_started p) |}).
  destruct (script_runs rest _) as [p2 others]. simpl in *. lia.
Qed.

Lemma script_runs_sessions runs : forall p,
  snd (script_runs runs p) =
    map (fun run => {| scheduler_started_at := Some (fst run);
                       scheduler_running := true |}) runs.
Proof.
  induction runs as [|[stamp s] rest IH]; intros p; [reflexivity|].
  simpl. specialize (IH {| scheduler_started := true;
                           threads_started := S (threads_started p) |}).
  destruct (script_runs rest _) as [p2 others]. simpl in *. now rewrite IH.
Qed.

(** X19.  The start guard holds within one call and no further.  A call of
    [start_scheduler] that finds the flag set starts no thread and leaves
    the start stamp of its session alone.  But the flag is set to false by
    line 39 at every run of the page script, so each run that reaches
    [start_scheduler] starts a new scheduler thread beside those of the
    runs before it: after any runs, in any state of the flag at their
    start, the threads of the process are as many more as there were runs,
    and each session carries the start stamp of its own run. *)
Theorem every_run_starts_a_scheduler_thread
    (runs : list (list N * session)) (p : process) :
  (forall stamp s,
     scheduler_started p = true ->
     start_scheduler stamp (p, s) =
       (p, {| scheduler_started_at := scheduler_started_at s;
              scheduler_running := true |})) /\
  threads_started (fst (script_runs runs p))
    = threads_started p + length runs /\
  snd (script_runs runs p) =
    map (fun run => {| scheduler_started_at := Some (fst run);
                       scheduler_running := true |}) runs.
Proof.
  split; [|split].
  - intros stamp s Hp. unfold start_scheduler. now rewrite Hp.
  - apply script_runs_threads.
  - apply script_runs_sessions.
Qed.

(** ** The page and the control file *)

Lemma mark_as_sent_answer_of_file key w w' :
  control_file w' = control_file w ->
  fst (mark_as_sent key w') = fst (mark_as_sent key w).
Proof.
  intros Hf. unfold mark_as_sent.
  rewrite (bind_ok _ _ _ _ _ (load_control_run w')).
  rewrite (bind_ok _ _ _ _ _ (load_control_run w)). rewrite Hf.
  destruct (stored_control (control_file w)) as [d|]; [|reflexivity].
  unfold getitem. destruct (d !! lit "sent") as [[| z | s | l]|];
    try reflexivity.
  - unfold bind, ret, contains, append, raise.
    destruct (is_substring key s); reflexivity.
  - unfold contains. fold (key_in l key).
    rewrite (bind_ok _ _ w' (PList l) w'), (bind_ok _ _ w (PList l) w)
      by reflexivity.
    rewrite (bind_ok _ _ w' (key_in l key) w'),
            (bind_ok _ _ w (key_in l key) w) by reflexivity.
    destruct (key_in l key); [reflexivity|].
    rewrite (bind_ok _ _ w' (PList (l ++ [EStr key])) w'),
            (bind_ok _ _ w (PList (l ++ [EStr key])) w) by reflexivity.
    now rewrite (bind_ok _ _ _ _ _ (save_control_run _ w')),
                (bind_ok _ _ _ _ _ (save_control_run _ w)).
Qed.

Section PageAndControl.

Variable rng : nat -> Z.
Variable anthropic_api : nat -> prompt -> res (list N).
Variable pushover_api : nat -> list N -> list N -> res (Z * list N).
Variable secrets : gmap (list N) (list N).
Variable wall_clock : nat -> list N.

Abbreviation main_send' :=
  (main_send rng anthropic_api pushover_api secrets wall_clock).
Abbreviation main' :=
  (main rng anthropic_api pushover_api secrets wall_clock).
Abbreviation main_runs' :=
  (main_runs rng anthropic_api pushover_api secrets wall_clock).

Lemma main_send_keeps_file msg_type : keeps same_file (main_send' msg_type).
Proof.
  unfold main_send.
  apply (keeps_bind _ same_file_trans).
  { destruct (is_substring _ msg_type);
      [|destruct (is_substring _ msg_type);
        [|destruct (is_substring _ msg_type)]];
      intros w; apply same_store_file, generate_and_send_keeps. }
  intros r. apply (keeps_bind _ same_file_trans).
  { intros w. unfold log_append. destruct (session_log w); now repeat split. }
  intros _. apply (keeps_ret _ same_file_refl).
Qed.

Lemma main_keeps_file pressed : keeps same_file (main' pressed).
Proof.
  unfold main. apply (keeps_bind _ same_file_trans).
  { intros w. unfold init_log. destruct (session_log w); now repeat split. }
  intros _. destruct (missing_secrets secrets);
    [|apply (keeps_ret _ same_file_refl)].
  destruct pressed; [|apply (keeps_ret _ same_file_refl)].
  apply (keeps_bind _ same_file_trans); [apply main_send_keeps_file|].
  intros _. apply (keeps_ret _ same_file_refl).
Qed.

(** X20.  The page script never touches the claims.  Over any runs of the
    script, with the button pressed or not, with any selection and whatever
    the services do, the script does not write the control file, which
    holds what it held; so a manual send consumes no slot, and a claim of
    any key gets after the runs the answer it would have got before them.
    (The scheduler thread the page starts is a computation of its own.) *)
Theorem manual_sends_leave_the_claims_alone
    (presses : list (option (list N))) (w : world) (key : list N) :
  control_file (snd (main_runs' presses w)) = control_file w /\
  writes (snd (main_runs' presses w)) = writes w /\
  fst (mark_as_sent key (snd (main_runs' presses w)))
    = fst (mark_as_sent key w).
Proof.
  pose proof (keeps_for_each _ same_file_refl same_file_trans presses main'
                main_keeps_file w) as (Hf & Hw & _).
  split; [exact Hf|]. split; [exact Hw|].
  now apply mark_as_sent_answer_of_file.
Qed.

End PageAndControl.

(** ** The further properties on sample runs *)

Lemma slot_keys_injective_witness :
  fixed_key (8, 0)%Z <> fixed_key (12, 0)%Z /\
  random_key (9, 30)%Z <> random_key (15, 0)%Z.
Proof.
  destruct (slot_keys_injective (8, 0)%Z (12, 0)%Z) as (Hfixed & _ & _).
  destruct (slot_keys_injective (9, 30)%Z (15, 0)%Z) as (_ & Hrandom & _).
  split; intros H; [apply Hfixed in H | apply Hrandom in H]; discriminate.
Defined.

Lemma rollover_frees_every_key_witness :
  fst (mark_as_sent KEY_0800
         (snd (ensure_today rng_zero DAY_TWO
                 (snd (mark_as_sent KEY_0800
                         (world_holding record_of_day_one)))))) = Ok true.
Proof.
  eapply proj1.
  eapply (rollover_frees_every_key rng_zero DAY_TWO
            (snd (mark_as_sent KEY_0800 (world_holding record_of_day_one)))
            _ (PStr DAY_ONE) KEY_0800).
  - vm_compute. reflexivity.
  - vm_compute. reflexivity.
  - vm_compute. discriminate.
  - reflexivity.
Defined.

Lemma generate_and_send_posts_truncated_message_witness :
  exists r w',
    generate_and_send rng_zero anthropic_up pushover_up all_secrets clock_text
      (lit "random") None None empty_world = (Ok r, w') /\
    outbox w' = [(truncate (message r), TITLE_INTEGRACAO)].
Proof.
  assert (Hrun : exists r w',
            generate_and_send rng_zero anthropic_up pushover_up all_secrets
              clock_text (lit "random") None None empty_world = (Ok r, w'))
    by (eexists _, _; vm_compute; reflexivity).
  destruct Hrun as (r & w' & Hrun). exists r, w'. split; [exact Hrun|].
  destruct (generate_and_send_posts_truncated_message rng_zero anthropic_up
              pushover_up all_secrets clock_text (lit "random") None None
              empty_world w' r Hrun) as (_ & _ & _ & _ & _ & Hpost).
  exact Hpost.
Defined.

Lemma unknown_sanctuary_delivers_nothing_witness :
  deliver rng_zero anthropic_up pushover_up all_secrets clock_text
    (lit "fixed") (Some UNKNOWN_SANCTUARY) (Some INTENCAO) empty_world
    = (Ok tt, empty_world).
Proof.
  eapply proj2.
  apply (unknown_sanctuary_delivers_nothing rng_zero anthropic_up pushover_up
           all_secrets clock_text UNKNOWN_SANCTUARY (Some INTENCAO)
           empty_world).
  - vm_compute. discriminate.
  - vm_compute. discriminate.
  - vm_compute. discriminate.
Defined.

Lemma same_day_posts_covered_by_claims_witness :
  exists keys posts,
    sent_of (snd (scheduler_loop rng_zero anthropic_up pushover_up all_secrets
                    clock_text [at_0800; at_0800; at_1200]
                    (world_holding record_of_day_one)))
      = Some (map EStr keys) /\
    outbox (snd (scheduler_loop rng_zero anthropic_up pushover_up all_secrets
                   clock_text [at_0800; at_0800; at_1200]
                   (world_holding record_of_day_one))) = posts /\
    length posts <= length keys /\
    NoDup keys.
Proof.
  destruct (same_day_posts_covered_by_claims rng_zero anthropic_up pushover_up
              all_secrets clock_text DAY_ONE [at_0800; at_0800; at_1200]
              (world_holding record_of_day_one) [])
    as (keys & posts & Hs & Ho & Hl & Hnd & _).
  - intros n. reflexivity.
  - eexists _, (PStr DAY_ONE), [].
    split; [reflexivity|]. split; [vm_compute; reflexivity|].
    split; [vm_compute; reflexivity|].
    change (Forall time_entry [EInts [9; 30]%Z; EInts [15; 0]%Z]).
    constructor; [exists [9; 30]%Z; split; [reflexivity | simpl; lia]|].
    constructor; [exists [15; 0]%Z; split; [reflexivity | simpl; lia]|].
    constructor.
  - repeat constructor.
  - eexists. split; [reflexivity|]. vm_compute. reflexivity.
  - vm_compute. reflexivity.
  - exists keys, posts. split; [exact Hs|]. split; [exact Ho|]. now split.
Defined.

Lemma scheduler_never_stores_a_key_twice_witness :
  sent_distinct
    (snd (scheduler_loop rng_zero anthropic_up pushover_up all_secrets
            clock_text [at_0800; at_0800; next_day_0800] empty_world)).
Proof.
  apply (scheduler_never_stores_a_key_twice rng_zero anthropic_up pushover_up
           all_secrets clock_text [at_0800; at_0800; next_day_0800]
           empty_world).
  intros sent Hs. vm_compute in Hs. injection Hs as <-. constructor.
Defined.

Lemma pass_outside_the_slots_changes_nothing_witness :
  scheduler_tick rng_zero anthropic_up pushover_up all_secrets clock_text
    at_0700 (world_holding record_of_day_one)
    = (Ok tt, world_holding record_of_day_one).
Proof.
  apply (pass_outside_the_slots_changes_nothing rng_zero anthropic_up
           pushover_up all_secrets clock_text at_0700
           (world_holding record_of_day_one)).
  - eexists _, (PStr DAY_ONE), [].
    split; [reflexivity|]. split; [vm_compute; reflexivity|].
    split; [vm_compute; reflexivity|].
    change (Forall time_entry [EInts [9; 30]%Z; EInts [15; 0]%Z]).
    constructor; [exists [9; 30]%Z; split; [reflexivity | simpl; lia]|].
    constructor; [exists [15; 0]%Z; split; [reflexivity | simpl; lia]|].
    constructor.
  - eexists. split; [reflexivity|]. vm_compute. reflexivity.
  - unfold FIXED_SCHEDULES. simpl. intros Hin.
    repeat (apply elem_of_cons in Hin as [Hin|Hin]; [discriminate|]).
    now apply elem_of_nil in Hin.
  - intros times Ht. vm_compute in Ht. injection Ht as <-. intros Hin.
    repeat (apply elem_of_cons in Hin as [Hin|Hin]; [discriminate|]).
    now apply elem_of_nil in Hin.
Defined.

Lemma second_pass_in_the_minute_changes_nothing_witness :
  exists w1,
    scheduler_tick rng_zero anthropic_up pushover_up all_secrets clock_text
      at_0800 empty_world = (Ok tt, w1) /\
    scheduler_tick rng_zero anthropic_up pushover_up all_secrets clock_text
      at_0800 w1 = (Ok tt, w1).
Proof.
  apply (second_pass_in_the_minute_changes_nothing rng_zero anthropic_up
           pushover_up all_secrets clock_text at_0800 empty_world).
  - exists (<[lit "date" := PNone]>
            (<[lit "sent" := PList []]>
             (<[lit "random_times" := PList []]> ∅))), PNone, [].
    split; [reflexivity|]. split; [reflexivity|]. split; [reflexivity|].
    vm_compute. constructor.
  - intros n. reflexivity.
Defined.

Lemma due_fixed_slot_is_delivered_witness :
  exists r w',
    fixed_slot rng_zero anthropic_up pushover_up all_secrets clock_text
      (8, 0)%Z SLOT_0800 empty_world = (Ok tt, w') /\
    sent_of w' = Some [EStr KEY_0800] /\
    outbox w' = [(truncate (message r), TITLE_CABECA)].
Proof.
  destruct (due_fixed_slot_is_delivered rng_zero anthropic_up pushover_up
              all_secrets clock_text SLOT_0800 empty_world []
              (lit "u") (lit "a"))
    as (r & w1 & w' & _ & _ & Hrun & Ho & _ & _ & Hs).
  - now left.
  - reflexivity.
  - reflexivity.
  - vm_compute. reflexivity.
  - vm_compute. reflexivity.
  - exists r, w'. split; [exact Hrun|]. split; [exact (Hs eq_refl) | exact Ho].
Defined.

Lemma main_without_a_secret_sends_nothing_witness :
  exists w',
    main rng_zero anthropic_up pushover_up no_secrets clock_text
      (Some RADIO_INTEGRACAO) empty_world = (Ok tt, w') /\
    outbox w' = [] /\ session_log w' = Some [].
Proof.
  destruct (main_without_a_secret_sends_nothing rng_zero anthropic_up
              pushover_up no_secrets clock_text (lit "PUSHOVER_USER_KEY")
              (Some RADIO_INTEGRACAO) empty_world)
    as (w' & Hrun & Ho & _ & _ & _ & _ & Hlog).
  - right. now left.
  - left. reflexivity.
  - exists w'. split; [exact Hrun|]. split; [exact Ho | exact Hlog].
Defined.

Lemma every_run_starts_a_scheduler_thread_witness :
  script_runs
    [(lit "2024-01-01 07:59:10", new_session);
     (lit "2024-01-01 08:03:40", new_session)] new_process =
  ({| scheduler_started := true; threads_started := 2 |},
   [{| scheduler_started_at := Some (lit "2024-01-01 07:59:10");
       scheduler_running := true |};
    {| scheduler_started_at := Some (lit "2024-01-01 08:03:40");
       scheduler_running := true |}]) /\
  start_scheduler (lit "2024-01-01 08:03:40")
    ({| scheduler_started := true; threads_started := 1 |}, new_session) =
  ({| scheduler_started := true; threads_started := 1 |},
   {| scheduler_started_at := None; scheduler_running := true |}).
Proof.
  destruct (every_run_starts_a_scheduler_thread
              [(lit "2024-01-01 07:59:10", new_session);
               (lit "2024-01-01 08:03:40", new_session)]
              {| scheduler_started := true; threads_started := 1 |})
    as (Hguard & _ & _).
  split; [reflexivity|].
  apply (Hguard (lit "2024-01-01 08:03:40") new_session eq_refl).
Defined.
